(** * Spotify-wrapped guessing game: a shallow embedding of [app.py]

    The Flask application keeps two kinds of state: the SQLite database
    (tables [people], [tracks], [leaderboard], [person_stats]) shared by
    every client, and the per-client [session] dictionary.  Each route is
    embedded as a function from the request data, the database and the
    session to a response, a database and a session.  Randomness
    ([random.choice], [random.sample], [random.shuffle]) is supplied by the
    request as explicit draws; the clock behind [CURRENT_TIMESTAMP] likewise.
    Python floats are IEEE binary64 values of [SpecFloat].  The connection
    handling ([get_db], [close_db]) and the one-time [init_db] of [setup] keep
    no data of their own: the model starts on the four tables, created and
    empty. *)

From Stdlib Require Import List ZArith Lia Bool String Ascii Arith Permutation.
From Stdlib Require Import Sorting.Sorted.
From Stdlib Require Import Floats.SpecFloat.
Import ListNotations.

Local Open Scope string_scope.
Local Open Scope Z_scope.

(** ** Python and SQL primitives *)

Module Py.

(** Strings are sequences of characters with code points below 256. *)

(** [str.isspace] on one character (code points below 256). *)
Definition is_space (c : ascii) : bool :=
  let n := nat_of_ascii c in
  ((9 <=? n) && (n <=? 13) || (28 <=? n) && (n <=? 32) || (n =? 133) || (n =? 160))%nat.

Fixpoint lstrip (s : string) : string :=
  match s with
  | EmptyString => EmptyString
  | String c s' => if is_space c then lstrip s' else s
  end.

Fixpoint rstrip (s : string) : string :=
  match s with
  | EmptyString => EmptyString
  | String c s' =>
      match rstrip s' with
      | EmptyString => if is_space c then EmptyString else String c EmptyString
      | r => String c r
      end
  end.

(** [s.strip()] *)
Definition strip (s : string) : string := rstrip (lstrip s).

(** Truthiness of a string: [not s] is true exactly for the empty string. *)
Definition nonempty (s : string) : bool :=
  match s with EmptyString => false | _ => true end.

(** [s.split(sep)] cut at the first occurrence of [sep]:
    the text before it and the text after it. *)
Definition split_once (sep s : string) : option (string * string) :=
  match String.index 0 sep s with
  | None => None
  | Some i =>
      Some (String.substring 0 i s,
            String.substring (i + String.length sep)%nat
                             (String.length s - (i + String.length sep))%nat s)
  end.

(** [s.split(sep)[0]] *)
Definition split_head (sep s : string) : string :=
  match split_once sep s with
  | Some (before, _) => before
  | None => s
  end.

(** [x in remaining] for a list of integers. *)
Definition mem (x : Z) (l : list Z) : bool := existsb (Z.eqb x) l.

(** [l.remove(x)]: drops the first occurrence of [x]. *)
Fixpoint remove (x : Z) (l : list Z) : list Z :=
  match l with
  | [] => []
  | y :: l' => if Z.eqb x y then l' else y :: remove x l'
  end.

(** A stable sort, as [sorted] and as the model of [ORDER BY]:
    [le a b] says that [a] may stand before [b]; elements that compare
    equal keep their order. *)
Fixpoint insert_by {A} (le : A -> A -> bool) (x : A) (l : list A) : list A :=
  match l with
  | [] => [x]
  | y :: l' => if le x y then x :: l else y :: insert_by le x l'
  end.

Definition sort_by {A} (le : A -> A -> bool) (l : list A) : list A :=
  fold_right (insert_by le) [] l.

(** *** The random source *)

(** The draws one [/quiz] request consumes.  Every natural number is a
    legal draw: it is reduced modulo the size of the population. *)
Record Rand := mkRand {
  rnd_choice : nat;           (* random.choice(remaining) *)
  rnd_sample : nat * nat;     (* random.sample(other_names, 2) *)
  rnd_shuffle : list nat      (* random.shuffle(names) *)
}.

(** [random.choice(l)]: [None] stands for the [IndexError] on an empty list. *)
Definition choice {A} (k : nat) (l : list A) : option A :=
  match l with
  | [] => None
  | _ => nth_error l (k mod List.length l)%nat
  end.

Fixpoint remove_nth {A} (i : nat) (l : list A) : list A :=
  match l, i with
  | [], _ => []
  | _ :: l', O => l'
  | x :: l', S i' => x :: remove_nth i' l'
  end.

(** [random.sample(l, 2)]: two elements at distinct positions;
    [None] stands for the [ValueError] when [l] has fewer than two. *)
Definition sample2 {A} (k : nat * nat) (l : list A) : option (list A) :=
  let n := List.length l in
  if (n <? 2)%nat then None
  else
    let i := (fst k mod n)%nat in
    let rest := remove_nth i l in
    match nth_error l i, nth_error rest (snd k mod (n - 1))%nat with
    | Some x, Some y => Some [x; y]
    | _, _ => None
    end.

Fixpoint set_nth {A} (i : nat) (v : A) (l : list A) : list A :=
  match l, i with
  | [], _ => []
  | _ :: l', O => v :: l'
  | x :: l', S i' => x :: set_nth i' v l'
  end.

(** [x[i], x[j] = x[j], x[i]] *)
Definition swap {A} (i j : nat) (l : list A) : list A :=
  match nth_error l i, nth_error l j with
  | Some a, Some b => set_nth i b (set_nth j a l)
  | _, _ => l
  end.

(** [random.shuffle(x)]: for [i] from [len(x)-1] down to [1], swap [x[i]]
    with [x[j]], [j] drawn below [i+1]. *)
Fixpoint shuffle_from {A} (i : nat) (draws : list nat) (l : list A) : list A :=
  match i with
  | O => l
  | S i' =>
      let j := (hd O draws mod (i + 1))%nat in
      shuffle_from i' (tl draws) (swap i j l)
  end.

Definition shuffle {A} (draws : list nat) (l : list A) : list A :=
  shuffle_from (List.length l - 1) draws l.

(** *** Floats *)

Definition prec : Z := 53.
Definition emax : Z := 1024.

(** [float(n)] for an integer [n]. *)
Definition float_of_int (n : Z) : spec_float := binary_normalize prec emax n 0 false.

(** [int(x)]: truncation towards zero; [None] stands for the error on
    infinities and NaN. *)
Definition int_of_float (x : spec_float) : option Z :=
  match x with
  | S754_zero _ => Some 0
  | S754_finite s m e =>
      let a := if (0 <=? e) then Z.pos m * 2 ^ e else Z.pos m / 2 ^ (- e) in
      Some (if s then - a else a)
  | _ => None
  end.

(** [int((a / b) * 100)] for integers [a] and [b <> 0] of magnitude below
    [2^53], where [a / b] is the quotient of the two converted floats. *)
Definition int_ratio_times_100 (a b : Z) : option Z :=
  int_of_float
    (SFmul prec emax (SFdiv prec emax (float_of_int a) (float_of_int b))
           (float_of_int 100)).

End Py.

(** ** The database *)

Module Db.

(** Rows of the four tables of [init_db]. *)
Record Person := mkPerson { p_id : Z; p_name : string }.
Record Track := mkTrack { t_id : Z; person_id : Z; track_id : string; pos : Z }.
Record Entry := mkEntry {
  e_id : Z; e_name : string; e_right : Z; e_total : Z; e_percent : Z;
  created_at : Z               (* CURRENT_TIMESTAMP, as seconds *)
}.
Record Stat := mkStat { s_person_id : Z; correct_guesses : Z; total_guesses : Z }.

(** A table is the list of its rows in rowid order.  The [_seq] fields are
    the AUTOINCREMENT counters (the largest id ever drawn). *)
Record DB := mkDB {
  people : list Person;        people_seq : Z;
  tracks : list Track;         tracks_seq : Z;
  leaderboard : list Entry;    leaderboard_seq : Z;
  person_stats : list Stat
}.

(** The tables right after [init_db] on a new file. *)
Definition empty : DB := mkDB [] 0 [] 0 [] 0 [].

Definition with_people (ps : list Person) (seq : Z) (db : DB) : DB :=
  mkDB ps seq (tracks db) (tracks_seq db) (leaderboard db) (leaderboard_seq db)
       (person_stats db).

Definition with_tracks (ts : list Track) (seq : Z) (db : DB) : DB :=
  mkDB (people db) (people_seq db) ts seq (leaderboard db) (leaderboard_seq db)
       (person_stats db).

Definition with_leaderboard (es : list Entry) (seq : Z) (db : DB) : DB :=
  mkDB (people db) (people_seq db) (tracks db) (tracks_seq db) es seq
       (person_stats db).

Definition with_person_stats (st : list Stat) (db : DB) : DB :=
  mkDB (people db) (people_seq db) (tracks db) (tracks_seq db)
       (leaderboard db) (leaderboard_seq db) st.

(** [SELECT * FROM people WHERE id = ?] / [WHERE name = ?], [fetchone()]. *)
Definition person_by_id (db : DB) (id : Z) : option Person :=
  find (fun p => p_id p =? id) (people db).

Definition person_by_name (db : DB) (name : string) : option Person :=
  find (fun p => String.eqb (p_name p) name) (people db).

(** [INSERT OR IGNORE INTO people (name) VALUES (?)]: [name] is UNIQUE.
    SQLite draws the new id from the AUTOINCREMENT counter before it checks
    the constraint, so an ignored insert uses up an id as well. *)
Definition insert_or_ignore_person (name : string) (db : DB) : DB :=
  let id := people_seq db + 1 in
  match person_by_name db name with
  | Some _ => with_people (people db) id db
  | None => with_people (people db ++ [mkPerson id name]) id db
  end.

(** [DELETE FROM tracks WHERE person_id = ?] *)
Definition delete_tracks (pid : Z) (db : DB) : DB :=
  with_tracks (filter (fun t => negb (person_id t =? pid)) (tracks db))
              (tracks_seq db) db.

(** [INSERT INTO tracks (person_id, track_id, pos) VALUES (?, ?, ?)] *)
Definition insert_track (pid : Z) (tid : string) (p : Z) (db : DB) : DB :=
  let id := tracks_seq db + 1 in
  with_tracks (tracks db ++ [mkTrack id pid tid p]) id db.

(** [SELECT COUNT(1) FROM tracks t WHERE t.person_id = ?] *)
Definition count_tracks (db : DB) (pid : Z) : nat :=
  List.length (filter (fun t => person_id t =? pid) (tracks db)).

(** The players of [/quiz]: the people with at least three track rows. *)
Definition eligible (db : DB) : list Person :=
  filter (fun p => (3 <=? count_tracks db (p_id p))%nat) (people db).

(** [SELECT track_id FROM tracks WHERE person_id = ? ORDER BY pos] *)
Definition track_ids_of (db : DB) (pid : Z) : list string :=
  map track_id
      (Py.sort_by (fun a b => pos a <=? pos b)
                  (filter (fun t => person_id t =? pid) (tracks db))).

(** [SELECT * FROM person_stats WHERE person_id = ?] *)
Definition stat_of (db : DB) (pid : Z) : option Stat :=
  find (fun st => s_person_id st =? pid) (person_stats db).

(** [UPDATE person_stats SET correct_guesses = correct_guesses + dc,
    total_guesses = total_guesses + 1 WHERE person_id = ?] *)
Definition update_stat (pid dc : Z) (db : DB) : DB :=
  with_person_stats
    (map (fun st => if s_person_id st =? pid
                    then mkStat pid (correct_guesses st + dc) (total_guesses st + 1)
                    else st)
         (person_stats db))
    db.

(** The place of a new row of [person_stats]: [person_id] is the INTEGER
    PRIMARY KEY, that is the rowid, so the table is kept in the order of
    [person_id]. *)
Fixpoint insert_row (row : Stat) (rows : list Stat) : list Stat :=
  match rows with
  | [] => [row]
  | r :: rows' =>
      if s_person_id row <? s_person_id r then row :: r :: rows'
      else r :: insert_row row rows'
  end.

(** [INSERT INTO person_stats VALUES (?, c, 1)].  The caller has found no
    row for [pid]; with [PRAGMA foreign_keys = ON] the insert fails
    ([None], an IntegrityError) when [pid] is not in [people]. *)
Definition insert_stat (pid c : Z) (db : DB) : option DB :=
  match person_by_id db pid with
  | None => None
  | Some _ =>
      Some (with_person_stats (insert_row (mkStat pid c 1) (person_stats db)) db)
  end.

(** [INSERT INTO leaderboard (name, right, total, percent) VALUES (...)] *)
Definition insert_entry (name : string) (r t pc now : Z) (db : DB) : DB :=
  let id := leaderboard_seq db + 1 in
  with_leaderboard (leaderboard db ++ [mkEntry id name r t pc now]) id db.

(** [ORDER BY percent DESC, right DESC, created_at ASC] *)
Definition entry_le (a b : Entry) : bool :=
  (e_percent b <? e_percent a)
  || ((e_percent a =? e_percent b)
      && ((e_right b <? e_right a)
          || ((e_right a =? e_right b) && (created_at a <=? created_at b)))).

Definition ranked (db : DB) : list Entry := Py.sort_by entry_le (leaderboard db).

End Db.

(** ** The session *)

Module Sess.

Record Score := mkScore { right : Z; total : Z }.

(** One element of [session["history"]]. *)
Record Round := mkRound {
  chosen : option string;      (* request.form.get("choice") *)
  correct : string;
  is_right : bool;
  round_tracks : list string
}.

Record LastResult := mkLast {
  last_chosen : option string; last_correct : string; last_is_right : bool
}.

(** The keys of the Flask [session] the application reads or writes.
    [None] is an absent key.  [remaining_people] can also be present with
    the value [None] ([Some None]): [/guess] stores it when the list runs
    empty.  [all_shown] and [name_submitted] only ever hold [True], so a
    boolean says whether the key is there.  [others] stands for whatever
    else the cookie holds. *)
Record Session := mkSession {
  remaining_people : option (option (list Z));
  all_shown : bool;
  current_person_id : option Z;
  correct_person_id : option Z;
  current_track_ids : option (list string);
  total_people : option Z;
  score : option Score;
  history : option (list Round);
  last_result : option LastResult;
  name_submitted : bool;
  others : list (string * string)
}.

(** A new client: the empty dictionary. *)
Definition empty : Session :=
  mkSession None false None None None None None None None false [].

Definition set_remaining_people v (s : Session) : Session :=
  mkSession v (all_shown s) (current_person_id s) (correct_person_id s)
    (current_track_ids s) (total_people s) (score s) (history s)
    (last_result s) (name_submitted s) (others s).
Definition set_all_shown v (s : Session) : Session :=
  mkSession (remaining_people s) v (current_person_id s) (correct_person_id s)
    (current_track_ids s) (total_people s) (score s) (history s)
    (last_result s) (name_submitted s) (others s).
Definition set_current_person_id v (s : Session) : Session :=
  mkSession (remaining_people s) (all_shown s) v (correct_person_id s)
    (current_track_ids s) (total_people s) (score s) (history s)
    (last_result s) (name_submitted s) (others s).
Definition set_correct_person_id v (s : Session) : Session :=
  mkSession (remaining_people s) (all_shown s) (current_person_id s) v
    (current_track_ids s) (total_people s) (score s) (history s)
    (last_result s) (name_submitted s) (others s).
Definition set_current_track_ids v (s : Session) : Session :=
  mkSession (remaining_people s) (all_shown s) (current_person_id s)
    (correct_person_id s) v (total_people s) (score s) (history s)
    (last_result s) (name_submitted s) (others s).
Definition set_total_people v (s : Session) : Session :=
  mkSession (remaining_people s) (all_shown s) (current_person_id s)
    (correct_person_id s) (current_track_ids s) v (score s) (history s)
    (last_result s) (name_submitted s) (others s).
Definition set_score v (s : Session) : Session :=
  mkSession (remaining_people s) (all_shown s) (current_person_id s)
    (correct_person_id s) (current_track_ids s) (total_people s) v (history s)
    (last_result s) (name_submitted s) (others s).
Definition set_history v (s : Session) : Session :=
  mkSession (remaining_people s) (all_shown s) (current_person_id s)
    (correct_person_id s) (current_track_ids s) (total_people s) (score s) v
    (last_result s) (name_submitted s) (others s).
Definition set_last_result v (s : Session) : Session :=
  mkSession (remaining_people s) (all_shown s) (current_person_id s)
    (correct_person_id s) (current_track_ids s) (total_people s) (score s)
    (history s) v (name_submitted s) (others s).
Definition set_name_submitted v (s : Session) : Session :=
  mkSession (remaining_people s) (all_shown s) (current_person_id s)
    (correct_person_id s) (current_track_ids s) (total_people s) (score s)
    (history s) (last_result s) v (others s).

(** [session.get("remaining_people")]: [None] for an absent key and for a
    stored [None] alike. *)
Definition get_remaining (s : Session) : option (list Z) :=
  match remaining_people s with
  | Some (Some l) => Some l
  | _ => None
  end.

(** [session.get("score", {"right": 0, "total": 0})] *)
Definition get_score (s : Session) : Score :=
  match score s with Some sc => sc | None => mkScore 0 0 end.

(** [session.get("history", [])] *)
Definition get_history (s : Session) : list Round :=
  match history s with Some h => h | None => [] end.

(** [session.get("current_track_ids", [])] *)
Definition get_track_ids (s : Session) : list string :=
  match current_track_ids s with Some t => t | None => [] end.

End Sess.

(** ** The routes *)

Module App.
Import Db Sess.

Inductive Exception := IndexError | TypeError | ValueError | IntegrityError.

Record Progress := mkProgress {
  pr_score : Score; pr_total_people : Z; pr_percent : Z
}.

(** The row of the chameleon query. *)
Record Chameleon := mkChameleon {
  ch_name : string; ch_correct : Z; ch_total : Z;
  ch_rate : Z                  (* success_rate, in tenths of a percent *)
}.

(** What a route returns: a redirect to an endpoint, a rendered template
    with its arguments, a JSON body, a 400, or an unhandled exception. *)
Inductive Response :=
| Redirect (endpoint : string)
| RenderInputSongs (people : list Person)
| RenderEmpty
| RenderNeedMorePlayers (count : nat)
| RenderQuiz (track_ids : list string) (choices : list string) (progress : Progress)
| RenderFinished (sc : Score) (last : option LastResult) (hist : list Round)
    (shared : list (string * list string)) (entries : list Entry)
    (chameleon : option Chameleon) (show_name_modal : bool)
| RenderEnterNameError
| RenderLeaderboard (entries : list Entry)
| Json (ch : option string) (co : string) (ok : bool) (sc : Score) (finished : bool)
| BadRequest
| ServerError (e : Exception).

Definition Result : Type := Response * DB * Session.

(** [int((a / b) * 100) if b > 0 else 0].  The conversion has a value for
    every pair of counts below [2^53]. *)
Definition percent_of (a b : Z) : Z :=
  if 0 <? b
  then match Py.int_ratio_times_100 a b with Some p => p | None => 0 end
  else 0.

(** *** [extract_track_id] *)
Definition marker : string := "open.spotify.com/track/".

Definition extract_track_id (s : string) : string :=
  match Py.split_once marker s with
  | None => s
  | Some (_, rest) =>
      let part := Py.split_head marker rest in        (* s.split(marker)[1] *)
      Py.split_head "/" (Py.split_head "?" part)
  end.

(** *** [/input-songs] *)
Definition input_songs_post (name t1 t2 t3 : option string)
    (db : DB) (s : Session) : Result :=
  match name, t1, t2, t3 with
  | Some name, Some t1, Some t2, Some t3 =>
      let name := Py.strip name in
      let t1 := Py.strip t1 in
      let t2 := Py.strip t2 in
      let t3 := Py.strip t3 in
      if negb (Py.nonempty name)
         || negb (Py.nonempty t1 && Py.nonempty t2 && Py.nonempty t3)
      then (BadRequest, db, s)
      else
        let db1 := insert_or_ignore_person name db in
        match person_by_name db1 name with
        | None => (ServerError TypeError, db1, s)
        | Some person =>
            let pid := p_id person in
            let db2 := delete_tracks pid db1 in
            let db3 :=
              insert_track pid (extract_track_id t3) 3
                (insert_track pid (extract_track_id t2) 2
                   (insert_track pid (extract_track_id t1) 1 db2)) in
            (Redirect "quiz", db3, s)
        end
  | _, _, _, _ => (BadRequest, db, s)        (* request.form[...] : missing key *)
  end.

Definition input_songs_get (db : DB) (s : Session) : Result :=
  (RenderInputSongs
     (Py.sort_by (fun a b => String.leb (p_name a) (p_name b)) (people db)),
   db, s).

(** *** [/quiz] *)

(** The route also fetches the row [person] and collects
    [guessed_correctly] from the history; neither is used afterwards. *)
Definition quiz (r : Py.Rand) (db : DB) (s : Session) : Result :=
  let people := eligible db in
  match people with
  | [] => (RenderEmpty, db, s)
  | _ =>
    if (List.length people <? 3)%nat
    then (RenderNeedMorePlayers (List.length people), db, s)
    else if all_shown s then (Redirect "finished", db, s)
    else
      let '(remaining, s1) :=
        match get_remaining s with
        | None =>
            let rem := map p_id people in
            (rem, set_remaining_people (Some (Some rem)) s)
        | Some rem => (rem, s)
        end in
      match Py.choice (Py.rnd_choice r) remaining with
      | None => (ServerError IndexError, db, s1)
      | Some pid =>
        let s2 := set_current_person_id (Some pid) s1 in
        let track_ids := track_ids_of db pid in
        match person_by_id db pid with
        | None => (ServerError TypeError, db, s2)
        | Some correct_person =>
          let correct_name := p_name correct_person in
          let other_names :=
            map p_name (filter (fun p => negb (p_id p =? pid)) people) in
          match Py.sample2 (Py.rnd_sample r) other_names with
          | None => (ServerError ValueError, db, s2)
          | Some distractors =>
            let names := Py.shuffle (Py.rnd_shuffle r) (correct_name :: distractors) in
            let s3 := set_current_track_ids (Some track_ids)
                        (set_correct_person_id (Some pid) s2) in
            let s4 :=
              match total_people s3 with
              | None => set_total_people
                          (Some (Z.of_nat (List.length (Db.people db)))) s3
              | Some _ => s3
              end in
            let sc := get_score s4 in
            let tp := match total_people s4 with Some n => n | None => 0 end in
            (RenderQuiz track_ids names
               (mkProgress sc tp (percent_of (total sc) tp)),
             db, s4)
          end
        end
      end
  end.

(** *** [/guess] *)

(** The per-person statistics of one guess on [pid]. *)
Definition record_guess (pid : Z) (result : bool) (db : DB) : option DB :=
  let dc := if result then 1 else 0 in
  match stat_of db pid with
  | Some _ => Some (update_stat pid dc db)
  | None => insert_stat pid dc db
  end.

(** "Remove the person from remaining after guess is made".  [None] is
    the TypeError of [x in None]. *)
Definition drop_current (s : Session) : option Session :=
  match remaining_people s with
  | Some None => None
  | None => Some s                          (* the default [] *)
  | Some (Some remaining) =>
      match current_person_id s with
      | None => Some s
      | Some cur =>
          if Py.mem cur remaining then
            match Py.remove cur remaining with
            | [] => Some (set_all_shown true (set_remaining_people (Some None) s))
            | rem => Some (set_remaining_people (Some (Some rem)) s)
            end
          else Some s
      end
  end.

Definition guess (choice : option string) (db : DB) (s : Session) : Result :=
  match correct_person_id s with
  | None => (Redirect "quiz", db, s)
  | Some correct_id =>
    let correct_name :=
      match person_by_id db correct_id with
      | Some row => p_name row
      | None => "Unknown"
      end in
    let result :=
      match choice with
      | Some c => String.eqb c correct_name
      | None => false
      end in
    match record_guess correct_id result db with
    | None => (ServerError IntegrityError, db, s)
    | Some db1 =>
      let sc0 := get_score s in
      let sc := mkScore (if result then right sc0 + 1 else right sc0)
                        (total sc0 + 1) in
      let s1 := set_score (Some sc) s in
      match drop_current s1 with
      | None => (ServerError TypeError, db1, s1)
      | Some s2 =>
        let round := mkRound choice correct_name result (get_track_ids s2) in
        let s3 := set_history (Some (get_history s2 ++ [round])%list) s2 in
        let s4 := set_correct_person_id None (set_current_track_ids None s3) in
        let s5 := set_last_result (Some (mkLast choice correct_name result)) s4 in
        (Json choice correct_name result sc (all_shown s5), db1, s5)
      end
    end
  end.

(** *** [/finished] *)

(** "Group tracks by track_id and collect all owners": the dictionary
    keeps its keys in insertion order. *)
Fixpoint add_owner (tid name : string) (groups : list (string * list string))
  : list (string * list string) :=
  match groups with
  | [] => [(tid, [name])]
  | (k, owners) :: rest =>
      if String.eqb k tid then (k, (owners ++ [name])%list) :: rest
      else (k, owners) :: add_owner tid name rest
  end.

(** [SELECT t.track_id, p.name FROM tracks t JOIN people p
     ON t.person_id = p.id ORDER BY t.track_id] *)
Definition track_owner_rows (db : DB) : list (string * string) :=
  Py.sort_by (fun a b => String.leb (fst a) (fst b))
    (flat_map
       (fun t => map (fun p => (track_id t, p_name p))
                     (filter (fun p => p_id p =? person_id t) (people db)))
       (tracks db)).

Definition shared_tracks (db : DB) : list (string * list string) :=
  let grouped :=
    fold_left (fun g row => add_owner (fst row) (snd row) g)
              (track_owner_rows db) [] in
  let multiple := filter (fun g => (1 <? List.length (snd g))%nat) grouped in
  Py.sort_by (fun a b => (List.length (snd b) <=? List.length (snd a))%nat) multiple.

(** [ROUND(correct_guesses * 100.0 / total_guesses, 1)], counted in tenths
    of a percent: the exact quotient rounded to the nearest tenth, halves
    upwards (the counters are not negative). *)
Definition success_rate (c t : Z) : Z := (2000 * c + t) / (2 * t).

(** The rows of the chameleon query before [ORDER BY] and [LIMIT]. *)
Definition chameleon_rows (db : DB) : list Chameleon :=
  flat_map
    (fun st =>
       if 3 <=? total_guesses st then
         map (fun p => mkChameleon (p_name p) (correct_guesses st) (total_guesses st)
                         (success_rate (correct_guesses st) (total_guesses st)))
             (filter (fun p => p_id p =? s_person_id st) (people db))
       else [])
    (person_stats db).

(** [ORDER BY success_rate ASC, ps.total_guesses DESC] *)
Definition chameleon_le (a b : Chameleon) : bool :=
  (ch_rate a <? ch_rate b)
  || ((ch_rate a =? ch_rate b) && (ch_total b <=? ch_total a)).

(** [... LIMIT 1], [fetchone()] *)
Definition chameleon (db : DB) : option Chameleon :=
  hd_error (Py.sort_by chameleon_le (chameleon_rows db)).

Definition finished (db : DB) (s : Session) : Result :=
  let show_name_modal := all_shown s && negb (name_submitted s) in
  (RenderFinished (get_score s) (last_result s) (get_history s)
     (shared_tracks db) (firstn 5 (ranked db)) (chameleon db) show_name_modal,
   db, s).

(** *** [/enter-name], [/skip-name] *)
Inductive Method := GET | POST.

Definition enter_name (m : Method) (name : option string) (now : Z)
    (db : DB) (s : Session) : Result :=
  if negb (all_shown s) then (Redirect "quiz", db, s)
  else
    match m with
    | POST =>
        let player_name :=
          Py.strip (match name with Some n => n | None => EmptyString end) in
        if negb (Py.nonempty player_name) then (RenderEnterNameError, db, s)
        else
          let sc := get_score s in
          let percent := percent_of (right sc) (total sc) in
          let db1 := insert_entry player_name (right sc) (total sc) percent now db in
          (Redirect "finished", db1, set_name_submitted true s)
    | GET => (Redirect "finished", db, s)
    end.

Definition skip_name (db : DB) (s : Session) : Result :=
  if all_shown s && negb (name_submitted s)
  then (Redirect "finished", db, set_name_submitted true s)
  else (Redirect "finished", db, s).

(** *** [/leaderboard], [/reset], [/] *)
Definition leaderboard_page (db : DB) (s : Session) : Result :=
  (RenderLeaderboard (ranked db), db, s).

(** [session.pop(k, None)] for the eight keys of the tuple. *)
Definition reset (db : DB) (s : Session) : Result :=
  (Redirect "quiz", db,
   set_name_submitted false
     (set_current_track_ids None
        (set_history None
           (set_score None
              (set_last_result None
                 (set_correct_person_id None
                    (set_all_shown false
                       (set_remaining_people None s)))))))).

Definition index (db : DB) (s : Session) : Result := (Redirect "quiz", db, s).

(** ** Requests and runs *)

Inductive Request :=
| Index
| InputSongsGet
| InputSongsPost (name t1 t2 t3 : option string)
| Quiz (r : Py.Rand)
| Guess (choice : option string)
| Finished
| EnterName (m : Method) (name : option string) (now : Z)
| SkipName
| Leaderboard
| Reset.

Definition handle (req : Request) (db : DB) (s : Session) : Result :=
  match req with
  | Index => index db s
  | InputSongsGet => input_songs_get db s
  | InputSongsPost name t1 t2 t3 => input_songs_post name t1 t2 t3 db s
  | Quiz r => quiz r db s
  | Guess choice => guess choice db s
  | Finished => finished db s
  | EnterName m name now => enter_name m name now db s
  | SkipName => skip_name db s
  | Leaderboard => leaderboard_page db s
  | Reset => reset db s
  end.

(** The session under study shares the database with every other client.
    [Own req] is a request of the session; [Other s' req] is a request of
    some other client whose cookie holds [s']: it acts on the database, and
    the session under study does not see its cookie. *)
Inductive Event :=
| Own (req : Request)
| Other (s' : Session) (req : Request).

Definition State : Type := DB * Session.

Definition step (ev : Event) (st : State) : State :=
  match ev with
  | Own req => let '(_, db, s) := handle req (fst st) (snd st) in (db, s)
  | Other s' req => let '(_, db, _) := handle req (fst st) s' in (db, snd st)
  end.

(** The response the session under study receives ([None] for the
    requests of others). *)
Definition response_of (ev : Event) (st : State) : option Response :=
  match ev with
  | Own req => let '(resp, _, _) := handle req (fst st) (snd st) in Some resp
  | Other _ _ => None
  end.

Fixpoint run (evs : list Event) (st : State) : State :=
  match evs with
  | [] => st
  | ev :: evs' => run evs' (step ev st)
  end.

(** The states the application can be in: it starts on empty tables with
    an empty cookie. *)
Inductive reachable : State -> Prop :=
| reach_init : reachable (Db.empty, Sess.empty)
| reach_step st ev : reachable st -> reachable (step ev st).

End App.


(** ** What is stated about the runs *)

Module Spec.
Import Db Sess App.

Definition ids (db : DB) : list Z := map p_id (people db).

(** The primary key of [people]: ids are distinct and were all handed out
    by the AUTOINCREMENT counter. *)
Record db_ok (db : DB) : Prop := mk_db_ok {
  ids_NoDup : NoDup (ids db);
  ids_bound : Forall (fun p => p_id p <= people_seq db) (people db)
}.

(** The list behind [remaining_people]; empty when none is stored. *)
Definition rem (s : Session) : list Z :=
  match get_remaining s with Some l => l | None => [] end.

(** The three shapes of [remaining_people]: absent before the first round
    and after [/reset]; a non-empty duplicate-free list of known ids while
    the game runs; [None] once everybody was shown. *)
Definition remaining_ok (db : DB) (s : Session) : Prop :=
  match remaining_people s with
  | None =>
      all_shown s = false /\ score s = None /\ history s = None
      /\ correct_person_id s = None
  | Some None => all_shown s = true /\ correct_person_id s = None
  | Some (Some l) =>
      l <> [] /\ NoDup l /\ (forall x, In x l -> In x (ids db))
      /\ all_shown s = false /\ (3 <= List.length (eligible db))%nat
  end.

(** A pending round is on the person drawn last, who is still remaining. *)
Definition round_ok (s : Session) : Prop :=
  forall c, correct_person_id s = Some c ->
            current_person_id s = Some c /\ In c (rem s).

Definition score_ok (s : Session) : Prop :=
  total (get_score s) = Z.of_nat (List.length (get_history s))
  /\ right (get_score s)
     = Z.of_nat (List.length (filter is_right (get_history s))).

Record inv (st : State) : Prop := mk_inv {
  inv_db : db_ok (fst st);
  inv_remaining : remaining_ok (fst st) (snd st);
  inv_round : round_ok (snd st);
  inv_score : score_ok (snd st)
}.

(** How the database moves under any request: people are only added,
    and nobody stops being eligible. *)
Record grows (db db' : DB) : Prop := mk_grows {
  grows_people : exists extra, people db' = (people db ++ extra)%list;
  grows_eligible : (List.length (eligible db) <= List.length (eligible db'))%nat
}.

(** The writes of [/input-songs] on [tracks], taken together. *)
Definition replace_tracks (pid : Z) (a b c : string) (db : DB) : DB :=
  insert_track pid c 3
    (insert_track pid b 2 (insert_track pid a 1 (delete_tracks pid db))).

(** The subject of a scored guess: the request is the session's [/guess]
    and the answer is the JSON body. *)
Definition scored (ev : Event) (st : State) : option Z :=
  match ev, response_of ev st with
  | Own (Guess _), Some (Json _ _ _ _ _) => correct_person_id (snd st)
  | _, _ => None
  end.

(** The subject a [/quiz] request of the session draws when it shows a
    round. *)
Definition drawn (ev : Event) (st : State) : option Z :=
  match ev, response_of ev st with
  | Own (Quiz _), Some (RenderQuiz _ _ _) => correct_person_id (snd (step ev st))
  | _, _ => None
  end.

Definition opt_list {A} (o : option A) : list A :=
  match o with Some a => [a] | None => [] end.

(** The subjects of the scored rounds, respectively of the rounds drawn,
    along a run, in order. *)
Fixpoint scored_subjects (evs : list Event) (st : State) : list Z :=
  match evs with
  | [] => []
  | ev :: evs' => (opt_list (scored ev st) ++ scored_subjects evs' (step ev st))%list
  end.

Fixpoint drawn_subjects (evs : list Event) (st : State) : list Z :=
  match evs with
  | [] => []
  | ev :: evs' => (opt_list (drawn ev st) ++ drawn_subjects evs' (step ev st))%list
  end.

Definition is_reset (ev : Event) : bool :=
  match ev with Own Reset => true | _ => false end.

Definition no_reset (evs : list Event) : Prop :=
  Forall (fun ev => is_reset ev = false) evs.

(** The session a round request leaves when it draws [pid] from
    [remaining]: the four writes of [/quiz]. *)
Definition round_session (db : DB) (pid : Z) (remaining : list Z) (s : Session)
  : Session :=
  mkSession (Some (Some remaining)) (all_shown s) (Some pid) (Some pid)
    (Some (track_ids_of db pid))
    (match total_people s with
     | None => Some (Z.of_nat (List.length (people db)))
     | Some n => Some n
     end)
    (score s) (history s) (last_result s) (name_submitted s) (others s).

(** The list a round request draws from. *)
Definition draw_pool (db : DB) (s : Session) : list Z :=
  match get_remaining s with
  | Some l => l
  | None => map p_id (eligible db)
  end.

(** The session a scored guess on [c] leaves, [l] being the remaining
    list before it. *)
Definition scored_session (choice : option string) (name : string)
    (result : bool) (c : Z) (l : list Z) (s : Session) : Session :=
  mkSession
    (match Py.remove c l with [] => Some None | r => Some (Some r) end)
    (match Py.remove c l with [] => true | _ => all_shown s end)
    (current_person_id s) None None (total_people s)
    (Some (mkScore (if result then right (get_score s) + 1 else right (get_score s))
                   (total (get_score s) + 1)))
    (Some (get_history s
           ++ [mkRound choice name result (get_track_ids s)])%list)
    (Some (mkLast choice name result)) (name_submitted s) (others s).

(** The counters of a person, [(0, 0)] when the person has no row. *)
Definition counters (db : DB) (pid : Z) : Z * Z :=
  match stat_of db pid with
  | Some st => (correct_guesses st, total_guesses st)
  | None => (0, 0)
  end.

(** A game is under way or over: [remaining_people] has been stored. *)
Definition started (s : Session) : Prop := remaining_people s <> None.

Definition is_json (r : Response) : bool :=
  match r with Json _ _ _ _ _ => true | _ => false end.

Definition is_server_error (r : Response) : bool :=
  match r with ServerError _ => true | _ => false end.

End Spec.

(** ** Concrete runs *)

Module Demo.
Import Db Sess App.

Definition init : State := (Db.empty, Sess.empty).

(** Somebody posts a name and three tracks. *)
Definition join (name t1 t2 t3 : string) : Event :=
  Other Sess.empty (InputSongsPost (Some name) (Some t1) (Some t2) (Some t3)).

(** Draws that take the first, respectively the second, remaining person. *)
Definition first : Py.Rand := Py.mkRand 0 (0, 0)%nat [].
Definition second : Py.Rand := Py.mkRand 1 (0, 0)%nat [].

(** Ann (id 1), Bob (id 2) and Cy (id 3) have joined; Ann and Bob share
    the track abc. *)
Definition three_players : State :=
  run [join "Ann" "abc" "xyz" "a3"; join "Bob" "abc" "b2" "b3";
       join "Cy" "c1" "c2" "c3"] init.

(** A round is shown and not yet answered. *)
Definition in_round : State := step (Own (Quiz first)) three_players.

(** Ann is drawn, then Bob on a second request; Bob is guessed; then Ann
    is drawn again. *)
Definition redraw : list Event :=
  [Own (Quiz first); Own (Quiz second); Own (Guess (Some "Bob")); Own (Quiz first)].

(** After the first round request: the three guesses of a whole game. *)
Definition rest_of_game : list Event :=
  [Own (Guess (Some "Ann")); Own (Quiz first); Own (Guess None);
   Own (Quiz first); Own (Guess (Some "Cy"))].

Definition game_over : State := run rest_of_game in_round.

(** Guesses of other clients on a pending round about person [c]. *)
Definition pending (c : Z) : Session := set_correct_person_id (Some c) Sess.empty.

Definition guesses (c : Z) (name : string) (hits misses : nat) : list Event :=
  (List.repeat (Other (pending c) (Guess (Some name))) hits
   ++ List.repeat (Other (pending c) (Guess None)) misses)%list.

(** Ann was guessed 1 time out of 20, Bob 6 times out of 119. *)
Definition close_rates : State :=
  run (guesses 1 "Ann" 1 19 ++ guesses 2 "Bob" 6 113)%list three_players.

(** The example of the chameleon query: X at 1 of 4, Y at 2 of 3 and Z
    with two guesses, [zc] of them right. *)
Definition xyz_stats (zc : Z) : DB :=
  mkDB [mkPerson 1 "X"; mkPerson 2 "Y"; mkPerson 3 "Z"] 3 [] 0 [] 0
       [mkStat 1 1 4; mkStat 2 2 3; mkStat 3 zc 2].

(** A player who lists one track twice, alone in the database. *)
Definition same_track_twice : State := run [join "Ann" "abc" "abc" "xyz"] init.

(** Fifty players p, px, pxx, ... *)
Fixpoint xs (k : nat) : string :=
  match k with O => EmptyString | S k' => String "x" (xs k') end.

Definition player (k : nat) : string := String "p" (xs k).

Definition crowd (n : nat) : list Event :=
  map (fun k => join (player k) "t1" "t2" "t3") (seq 0 n).

(** A whole game on [n] players in the order of their ids; the first
    [hits] guesses are right, the others leave the choice out. *)
Definition rounds (n hits : nat) : list Event :=
  flat_map
    (fun k => [Own (Quiz first);
               Own (Guess (if (k <? hits)%nat then Some (player k) else None))])
    (seq 0 n).

(** The pairs [right <= total] with [0 < total < bound] on which the
    stored percent is not the floor of [right * 100 / total]. *)
Definition percent_off (bound : nat) : list (Z * Z) :=
  flat_map
    (fun t =>
       flat_map
         (fun r =>
            let r := Z.of_nat r in
            let t := Z.of_nat t in
            if percent_of r t =? r * 100 / t then [] else [(r, t)])
         (seq 0 (S t)))
    (seq 1 (bound - 1)).

(** Fifty players, a game with 29 right guesses, and the name entered. *)
Definition game_29_of_50 : list Event :=
  (crowd 50 ++ rounds 50 29 ++ [Own (EnterName POST (Some "Ann") 0)])%list.

End Demo.

(** ** Further invariants of the tables and of the session *)

Module Store.
Import Db Sess App Spec.

(** The track rows of one person, in table order. *)
Definition rows_of (db : DB) (pid : Z) : list Track :=
  filter (fun t => person_id t =? pid) (tracks db).

Record stat_ok (db : DB) (st : Stat) : Prop := mk_stat_ok {
  stat_known : In (s_person_id st) (ids db);
  stat_bounds : 0 <= correct_guesses st <= total_guesses st;
  stat_positive : 1 <= total_guesses st
}.

(** What the constraints of the schema and the writes of the routes keep:
    names are distinct and not empty; every person has exactly the three
    track rows of positions 1, 2, 3; track and statistics rows belong to
    known people; there is one statistics row per person at most. *)
Record store_ok (db : DB) : Prop := mk_store_ok {
  names_NoDup : NoDup (map p_name (people db));
  names_nonempty : Forall (fun p => Py.nonempty (p_name p) = true) (people db);
  three_tracks : Forall (fun p => map pos (rows_of db (p_id p)) = [1; 2; 3]) (people db);
  tracks_owned : Forall (fun t => In (person_id t) (ids db)) (tracks db);
  stats_NoDup : NoDup (map s_person_id (person_stats db));
  stats_ok : Forall (stat_ok db) (person_stats db)
}.

(** A form field that fails the validation of [/input-songs]: missing, or
    empty once stripped. *)
Definition blank (v : option string) : Prop :=
  match v with
  | None => True
  | Some x => Py.nonempty (Py.strip x) = false
  end.

(** One round of the history agrees with itself and with the tables. *)
Record round_ok (db : DB) (r : Round) : Prop := mk_round_ok {
  round_verdict : is_right r = true <-> chosen r = Some (correct r);
  round_subject : In (correct r) (map p_name (people db));
  round_three : List.length (round_tracks r) = 3%nat
}.

(** The last answer as [/guess] stores it. *)
Definition last_of (r : Round) : LastResult :=
  mkLast (chosen r) (correct r) (is_right r).

(** The parts of the session the summary page shows. *)
Record summary_ok (db : DB) (s : Session) : Prop := mk_summary_ok {
  rounds_ok : Forall (round_ok db) (get_history s);
  last_is_last :
    last_result s = option_map last_of (List.last (map Some (get_history s)) None);
  pending_tracks :
    forall c, correct_person_id s = Some c ->
              exists t, current_track_ids s = Some t /\ List.length t = 3%nat;
  submitted_after_game : name_submitted s = true -> all_shown s = true
}.

(** Whether the summary page opens the name modal. *)
Definition modal_of (r : Response) : bool :=
  match r with
  | RenderFinished _ _ _ _ _ _ modal => modal
  | _ => false
  end.

(** The [finished] flag of the JSON answer of [/guess]. *)
Definition finished_of (r : Response) : bool :=
  match r with
  | Json _ _ _ _ finished => finished
  | _ => false
  end.

(** The routes that contain a write to the database, respectively to the
    session. *)
Definition writes_db (req : Request) : bool :=
  match req with
  | InputSongsPost _ _ _ _ | Guess _ | EnterName _ _ _ => true
  | _ => false
  end.

Definition writes_session (req : Request) : bool :=
  match req with
  | Quiz _ | Guess _ | EnterName _ _ _ | SkipName | Reset => true
  | _ => false
  end.

(** Whether the character [c] occurs in [s]. *)
Fixpoint has (c : ascii) (s : string) : bool :=
  match s with
  | EmptyString => false
  | String a s' => Ascii.eqb a c || has c s'
  end.

(** The part of [s] before the first [c]; all of [s] when [c] does not
    occur. *)
Fixpoint before (c : ascii) (s : string) : string :=
  match s with
  | EmptyString => EmptyString
  | String a s' => if Ascii.eqb a c then EmptyString else String a (before c s')
  end.

End Store.
(** * Properties *)

(** ** Lists and draws *)

Module PyFacts.
Import Py.

Lemma mem_In x l : mem x l = true <-> In x l.
Proof.
  unfold mem. rewrite existsb_exists. split.
  - intros (y & Hy & E). apply Z.eqb_eq in E. now subst.
  - intros H. exists x. split; [assumption | apply Z.eqb_refl].
Qed.

Lemma remove_In x y l : In y (remove x l) -> In y l.
Proof.
  induction l as [|z l IH]; simpl; [tauto|].
  destruct (Z.eqb_spec x z); simpl; intuition.
Qed.

Lemma remove_perm x l : In x l -> Permutation (x :: remove x l) l.
Proof.
  induction l as [|z l IH]; simpl; [tauto|].
  destruct (Z.eqb_spec x z) as [->|N]; intros H.
  - reflexivity.
  - destruct H as [E|H]; [congruence|].
    rewrite perm_swap. now rewrite IH.
Qed.

Lemma remove_NoDup x l : NoDup l -> NoDup (remove x l).
Proof.
  induction 1 as [|z l Hz Hl IH]; simpl; [constructor|].
  destruct (Z.eqb_spec x z); [assumption|].
  constructor; [|assumption]. intros H. apply Hz. eapply remove_In, H.
Qed.

Lemma remove_length x l : In x l -> S (List.length (remove x l)) = List.length l.
Proof.
  intros H. exact (Permutation_length (remove_perm x l H)).
Qed.

Lemma remove_not_In x l : NoDup l -> ~ In x (remove x l).
Proof.
  induction 1 as [|z l Hz Hl IH]; simpl; [tauto|].
  destruct (Z.eqb_spec x z) as [->|N]; [assumption|].
  simpl. intros [E|H]; [congruence | tauto].
Qed.

Lemma choice_In {A} k (l : list A) x : choice k l = Some x -> In x l.
Proof.
  unfold choice. destruct l; [discriminate|]. apply nth_error_In.
Qed.

Lemma choice_Some {A} k (l : list A) : l <> [] -> exists x, choice k l = Some x.
Proof.
  intros H. unfold choice. destruct l as [|a l]; [congruence|].
  destruct (nth_error (a :: l) (k mod List.length (a :: l))) eqn:E; [eauto|].
  apply nth_error_None in E.
  pose proof (Nat.mod_upper_bound k (List.length (a :: l))) as B.
  simpl in *. lia.
Qed.

Lemma remove_nth_length {A} i (l : list A) :
  (i < List.length l)%nat -> S (List.length (remove_nth i l)) = List.length l.
Proof.
  revert i. induction l as [|a l IH]; simpl; intros i H; [lia|].
  destruct i; simpl; [reflexivity|]. rewrite IH; [reflexivity | lia].
Qed.

Lemma sample2_Some {A} k (l : list A) :
  (2 <= List.length l)%nat -> exists x y, sample2 k l = Some [x; y].
Proof.
  intros H. unfold sample2.
  destruct (Nat.ltb_spec (List.length l) 2) as [C|_]; [lia|].
  assert (Hi : (fst k mod List.length l < List.length l)%nat)
    by (apply Nat.mod_upper_bound; lia).
  destruct (nth_error l (fst k mod List.length l)) as [x|] eqn:Ex;
    [|apply nth_error_None in Ex; lia].
  pose proof (remove_nth_length _ l Hi) as Hr.
  assert (Hj : (snd k mod (List.length l - 1) < List.length l - 1)%nat)
    by (apply Nat.mod_upper_bound; lia).
  destruct (nth_error (remove_nth (fst k mod List.length l) l)
                      (snd k mod (List.length l - 1))) as [y|] eqn:Ey;
    [eauto | apply nth_error_None in Ey; lia].
Qed.

Lemma find_app {A} (f : A -> bool) (l l' : list A) :
  find f (l ++ l') = match find f l with Some x => Some x | None => find f l' end.
Proof.
  induction l as [|a l IH]; simpl; [reflexivity|]. now destruct (f a).
Qed.

Lemma filter_length_mono {A} (f g : A -> bool) (l : list A) :
  (forall x, In x l -> f x = true -> g x = true) ->
  (List.length (filter f l) <= List.length (filter g l))%nat.
Proof.
  induction l as [|a l IH]; simpl; intros H; [lia|].
  assert (IH' := IH (fun x Hx => H x (or_intror Hx))).
  destruct (f a) eqn:Fa.
  - rewrite (H a (or_introl eq_refl) Fa). simpl. lia.
  - destruct (g a); simpl; lia.
Qed.

Lemma NoDup_map_filter {A B} (h : A -> B) (f : A -> bool) (l : list A) :
  NoDup (map h l) -> NoDup (map h (filter f l)).
Proof.
  induction l as [|a l IH]; simpl; intros H; [constructor|].
  inversion H as [|? ? Ha Hl]; subst.
  destruct (f a); simpl; [constructor|]; auto.
  intros Hin. apply Ha. apply in_map_iff in Hin as (x & E & Hx).
  apply in_map_iff. exists x. split; [assumption|].
  apply filter_In in Hx. tauto.
Qed.

End PyFacts.

(** ** The database under the routes *)

Module DbFacts.
Import Db Sess App Spec.

Lemma person_by_id_Some db x p :
  person_by_id db x = Some p -> In p (people db) /\ p_id p = x.
Proof.
  unfold person_by_id. intros H. apply find_some in H as [Hin E].
  apply Z.eqb_eq in E. auto.
Qed.

Lemma person_by_id_known db x :
  In x (ids db) -> exists p, person_by_id db x = Some p.
Proof.
  unfold ids, person_by_id. intros H. apply in_map_iff in H as (p & E & Hp).
  destruct (find (fun q => p_id q =? x) (people db)) as [q|] eqn:F; [eauto|].
  exfalso. apply (find_none _ _ F) in Hp. apply Z.eqb_neq in Hp. auto.
Qed.

Lemma person_by_id_ids db x p : person_by_id db x = Some p -> In x (ids db).
Proof.
  intros H. apply person_by_id_Some in H as [Hin <-]. now apply in_map.
Qed.

Lemma grows_refl db : grows db db.
Proof. split; [exists []; now rewrite app_nil_r | lia]. Qed.

Lemma eligible_same db db' :
  people db' = people db -> tracks db' = tracks db -> eligible db' = eligible db.
Proof. unfold eligible, count_tracks. now intros -> ->. Qed.

Lemma grows_same db db' :
  people db' = people db -> tracks db' = tracks db -> grows db db'.
Proof.
  intros Hp Ht. split.
  - exists []. now rewrite app_nil_r.
  - now rewrite (eligible_same _ _ Hp Ht).
Qed.

Lemma db_ok_same db db' :
  people db' = people db -> people_seq db' = people_seq db ->
  db_ok db -> db_ok db'.
Proof.
  intros Hp Hs [N B]. split; unfold ids in *; rewrite Hp; [|rewrite Hs]; assumption.
Qed.

Lemma grows_ids db db' x : grows db db' -> In x (ids db) -> In x (ids db').
Proof.
  intros [[extra E] _]. unfold ids. rewrite E, map_app, in_app_iff. tauto.
Qed.

Lemma grows_person db db' x p :
  grows db db' -> person_by_id db x = Some p -> person_by_id db' x = Some p.
Proof.
  intros [[extra E] _]. unfold person_by_id. rewrite E. intros H.
  now rewrite PyFacts.find_app, H.
Qed.

(** *** [INSERT OR IGNORE INTO people] *)

Lemma insert_person_ok name db : db_ok db -> db_ok (insert_or_ignore_person name db).
Proof.
  intros [N B]. unfold insert_or_ignore_person.
  destruct (person_by_name db name).
  { split; unfold ids in *; simpl; [assumption|].
    eapply Forall_impl; [|exact B]. simpl. intros; lia. }
  split; unfold ids in *; simpl.
  - rewrite map_app. simpl. apply NoDup_app; [assumption | repeat constructor; simpl; tauto |].
    intros x Hx [<-|[]]. apply in_map_iff in Hx as (p & E & Hp).
    rewrite Forall_forall in B. specialize (B p Hp). lia.
  - apply Forall_app. split.
    + eapply Forall_impl; [|exact B]. simpl. intros; lia.
    + repeat constructor. simpl. lia.
Qed.

Lemma insert_person_found name db :
  exists p, person_by_name (insert_or_ignore_person name db) name = Some p.
Proof.
  unfold insert_or_ignore_person.
  destruct (person_by_name db name) as [p|] eqn:E; [eauto|].
  unfold person_by_name in *. simpl. rewrite PyFacts.find_app, E. simpl.
  rewrite String.eqb_refl. eauto.
Qed.

Lemma insert_person_people name db :
  exists extra, people (insert_or_ignore_person name db) = (people db ++ extra)%list.
Proof.
  unfold insert_or_ignore_person. destruct (person_by_name db name); simpl.
  - exists []. now rewrite app_nil_r.
  - eauto.
Qed.

Lemma insert_person_tracks name db :
  tracks (insert_or_ignore_person name db) = tracks db.
Proof.
  unfold insert_or_ignore_person. now destruct (person_by_name db name).
Qed.

(** *** Replacing the three tracks of a person *)

Lemma replace_tracks_count pid a b c db x :
  (3 <= count_tracks db x)%nat \/ x = pid ->
  (3 <= count_tracks (replace_tracks pid a b c db) x)%nat.
Proof.
  unfold count_tracks, replace_tracks. simpl.
  rewrite <- !app_assoc. simpl. rewrite filter_app, length_app. simpl.
  destruct (Z.eqb_spec pid x) as [->|N]; simpl.
  - intros _. lia.
  - intros [H|H]; [|congruence].
    enough (E : filter (fun t => person_id t =? x)
                  (filter (fun t => negb (person_id t =? pid)) (tracks db))
                = filter (fun t => person_id t =? x) (tracks db))
      by (rewrite E; lia).
    clear H. induction (tracks db) as [|t l IH]; simpl; [reflexivity|].
    destruct (Z.eqb_spec (person_id t) pid) as [E1|N1]; simpl.
    + destruct (Z.eqb_spec (person_id t) x); [congruence | exact IH].
    + destruct (person_id t =? x); [f_equal|]; exact IH.
Qed.

Lemma replace_tracks_people pid a b c db :
  people (replace_tracks pid a b c db) = people db
  /\ people_seq (replace_tracks pid a b c db) = people_seq db.
Proof. split; reflexivity. Qed.

Lemma input_songs_post_db name t1 t2 t3 db s :
  db_ok db ->
  let db' := snd (fst (input_songs_post name t1 t2 t3 db s)) in
  db_ok db' /\ grows db db'
  /\ is_server_error (fst (fst (input_songs_post name t1 t2 t3 db s))) = false.
Proof.
  intros Hok. unfold input_songs_post.
  destruct name as [name|], t1 as [t1|], t2 as [t2|], t3 as [t3|];
    try (simpl; split; [assumption | split; [apply grows_refl | reflexivity]]).
  destruct (negb (Py.nonempty (Py.strip name)) || _);
    [simpl; split; [assumption | split; [apply grows_refl | reflexivity]]|].
  destruct (insert_person_found (Py.strip name) db) as [p Hp]. rewrite Hp.
  set (db1 := insert_or_ignore_person (Py.strip name) db) in *.
  change (let db' := replace_tracks (p_id p) (extract_track_id (Py.strip t1))
                       (extract_track_id (Py.strip t2))
                       (extract_track_id (Py.strip t3)) db1 in
          db_ok db' /\ grows db db' /\ false = false).
  intros db'. split; [|split; [|reflexivity]].
  - apply (db_ok_same db1); [reflexivity | reflexivity | now apply insert_person_ok].
  - destruct (insert_person_people (Py.strip name) db) as [extra E].
    fold db1 in E. split.
    + exists extra. exact E.
    + unfold eligible at 2. change (people db') with (people db1). rewrite E.
      rewrite filter_app, length_app. unfold eligible.
      etransitivity; [|apply Nat.le_add_r].
      apply PyFacts.filter_length_mono. intros q _ Hq.
      apply Nat.leb_le. apply Nat.leb_le in Hq.
      apply replace_tracks_count. left.
      unfold count_tracks in *. subst db1. now rewrite insert_person_tracks.
Qed.

(** *** A new row of [person_stats] *)

Lemma insert_row_perm row rows : Permutation (insert_row row rows) (row :: rows).
Proof.
  induction rows as [|r rows IH]; simpl; [reflexivity|].
  destruct (s_person_id row <? s_person_id r); [reflexivity|].
  rewrite IH. apply perm_swap.
Qed.

Lemma find_insert_row_self row rows :
  find (fun st => s_person_id st =? s_person_id row) rows = None ->
  find (fun st => s_person_id st =? s_person_id row) (insert_row row rows)
  = Some row.
Proof.
  induction rows as [|r rows IH]; simpl; intros H.
  - now rewrite Z.eqb_refl.
  - destruct (s_person_id r =? s_person_id row) eqn:E; [discriminate|].
    destruct (s_person_id row <? s_person_id r); simpl.
    + now rewrite Z.eqb_refl.
    + rewrite E. auto.
Qed.

Lemma find_insert_row_other row rows x :
  s_person_id row <> x ->
  find (fun st => s_person_id st =? x) (insert_row row rows)
  = find (fun st => s_person_id st =? x) rows.
Proof.
  intros N. induction rows as [|r rows IH]; simpl.
  - destruct (Z.eqb_spec (s_person_id row) x); [congruence | reflexivity].
  - destruct (s_person_id row <? s_person_id r); simpl.
    + destruct (Z.eqb_spec (s_person_id row) x); [congruence | reflexivity].
    + now rewrite IH.
Qed.

(** *** [/guess] and [/enter-name] leave [people] and [tracks] alone *)

Lemma record_guess_same pid b db db1 :
  record_guess pid b db = Some db1 ->
  people db1 = people db /\ tracks db1 = tracks db /\ people_seq db1 = people_seq db
  /\ leaderboard db1 = leaderboard db.
Proof.
  unfold record_guess, insert_stat.
  destruct (stat_of db pid); [|destruct (person_by_id db pid)];
    intros [= <-]; auto.
Qed.

Lemma guess_db choice db s :
  let db' := snd (fst (guess choice db s)) in
  people db' = people db /\ tracks db' = tracks db /\ people_seq db' = people_seq db.
Proof.
  unfold guess. destruct (correct_person_id s); [|auto].
  destruct (record_guess _ _ db) as [db1|] eqn:R; [|auto].
  apply record_guess_same in R as (? & ? & ? & ?).
  destruct (drop_current _); simpl; auto.
Qed.

Lemma enter_name_db m name now db s :
  let db' := snd (fst (enter_name m name now db s)) in
  people db' = people db /\ tracks db' = tracks db /\ people_seq db' = people_seq db.
Proof.
  unfold enter_name. destruct (negb (all_shown s)); [auto|].
  destruct m; [auto|]. destruct (negb _); simpl; auto.
Qed.

Lemma quiz_db r db s : snd (fst (quiz r db s)) = db.
Proof.
  unfold quiz. destruct (eligible db); [reflexivity|].
  destruct (_ <? 3)%nat; [reflexivity|]. destruct (all_shown s); [reflexivity|].
  destruct (match get_remaining s with Some _ => _ | None => _ end) as [rem s1].
  destruct (Py.choice _ rem); [|reflexivity].
  destruct (person_by_id db z); [|reflexivity].
  destruct (Py.sample2 _ _); reflexivity.
Qed.

Lemma handle_db req db s :
  db_ok db ->
  let db' := snd (fst (handle req db s)) in db_ok db' /\ grows db db'.
Proof.
  intros Hok. destruct req; simpl;
    try (split; [assumption | apply grows_refl]).
  - destruct (input_songs_post_db name t1 t2 t3 db s Hok) as (? & ? & _). auto.
  - rewrite quiz_db. split; [assumption | apply grows_refl].
  - destruct (guess_db choice db s) as (Hp & Ht & Hs).
    split; [now apply (db_ok_same db) | now apply grows_same].
  - destruct (enter_name_db m name now db s) as (Hp & Ht & Hs).
    split; [now apply (db_ok_same db) | now apply grows_same].
  - unfold skip_name. destruct (_ && _); simpl; split; auto using grows_refl.
Qed.

End DbFacts.

(** ** The routes on states that satisfy the invariant *)

Module RouteFacts.
Import Db Sess App Spec DbFacts.

Lemma others_length pid (l : list Person) :
  NoDup (map p_id l) ->
  (List.length l
   <= S (List.length (filter (fun p => negb (p_id p =? pid)%Z) l)))%nat.
Proof.
  induction l as [|a l IH]; simpl; intros H; [lia|].
  inversion H as [|? ? Ha Hl]; subst. specialize (IH Hl).
  destruct (Z.eqb_spec (p_id a) pid) as [E|N]; simpl; [|lia].
  enough (F : filter (fun p => negb (p_id p =? pid)) l = l) by (rewrite F; lia).
  apply forallb_filter_id, forallb_forall. intros q Hq.
  destruct (Z.eqb_spec (p_id q) pid) as [E'|]; [|reflexivity].
  exfalso. apply Ha. rewrite E, <- E'. now apply in_map.
Qed.

Lemma eligible_ids db x : In x (map p_id (eligible db)) -> In x (ids db).
Proof.
  unfold eligible, ids. rewrite !in_map_iff. intros (p & E & Hp).
  apply filter_In in Hp. exists p. tauto.
Qed.

Lemma draw_pool_ok db s :
  db_ok db -> remaining_ok db s -> all_shown s = false ->
  (3 <= List.length (eligible db))%nat ->
  draw_pool db s <> [] /\ NoDup (draw_pool db s)
  /\ (forall x, In x (draw_pool db s) -> In x (ids db)).
Proof.
  intros [N _] R A E. unfold draw_pool, get_remaining. unfold remaining_ok in R.
  destruct (remaining_people s) as [[l|]|].
  - tauto.
  - destruct R; congruence.
  - repeat split.
    + destruct (eligible db); simpl in *; [lia | discriminate].
    + apply PyFacts.NoDup_map_filter. exact N.
    + apply eligible_ids.
Qed.

(** A round request on a running game shows a round: the subject is the
    draw from the pool, the choices the shuffled names. *)
Lemma quiz_round r db s :
  db_ok db -> remaining_ok db s -> all_shown s = false ->
  (3 <= List.length (eligible db))%nat ->
  exists pid p x y,
    Py.choice (Py.rnd_choice r) (draw_pool db s) = Some pid
    /\ person_by_id db pid = Some p
    /\ Py.sample2 (Py.rnd_sample r)
         (map p_name (filter (fun q => negb (p_id q =? pid)) (eligible db)))
       = Some [x; y]
    /\ quiz r db s
       = (RenderQuiz (track_ids_of db pid)
            (Py.shuffle (Py.rnd_shuffle r) [p_name p; x; y])
            (let s' := round_session db pid (draw_pool db s) s in
             let tp := match total_people s' with Some n => n | None => 0 end in
             mkProgress (get_score s) tp (percent_of (total (get_score s)) tp)),
          db, round_session db pid (draw_pool db s) s).
Proof.
  intros Hok R A E.
  destruct (draw_pool_ok db s Hok R A E) as (Hne & Hnd & Hin).
  destruct (PyFacts.choice_Some (Py.rnd_choice r) _ Hne) as [pid Hc].
  destruct (person_by_id_known db pid (Hin _ (PyFacts.choice_In _ _ _ Hc))) as [p Hp].
  destruct (PyFacts.sample2_Some (Py.rnd_sample r)
              (map p_name (filter (fun q => negb (p_id q =? pid)) (eligible db))))
    as (x & y & Hs).
  { rewrite length_map.
    pose proof (others_length pid (eligible db)
                  (PyFacts.NoDup_map_filter _ _ _ (ids_NoDup _ Hok))). lia. }
  exists pid, p, x, y. repeat split; try assumption.
  unfold quiz.
  destruct (eligible db) as [|e0 el] eqn:El; [simpl in E; lia|].
  rewrite <- El in *.
  destruct (Nat.ltb_spec (List.length (eligible db)) 3) as [C|_]; [lia|].
  rewrite A.
  unfold draw_pool in Hc.
  destruct (get_remaining s) as [l|] eqn:G.
  - rewrite Hc, Hp, Hs. unfold draw_pool. rewrite G.
    unfold round_session, get_score, get_remaining in *.
    destruct s as [rp ? ? ? ? tp ? ? ? ? ?]; simpl in *.
    destruct rp as [[l'|]|]; try discriminate. injection G as ->.
    destruct tp; reflexivity.
  - rewrite Hc, Hp, Hs. unfold draw_pool. rewrite G.
    unfold round_session, get_score in *.
    destruct s as [rp ? ? ? ? tp ? ? ? ? ?]; simpl in *.
    destruct tp; reflexivity.
Qed.

(** A round request that shows no round leaves the session as it is. *)
Lemma quiz_idle r db s :
  (List.length (eligible db) < 3)%nat \/ all_shown s = true ->
  snd (quiz r db s) = s /\ is_server_error (fst (fst (quiz r db s))) = false
  /\ (forall t c p, fst (fst (quiz r db s)) <> RenderQuiz t c p).
Proof.
  intros H. unfold quiz.
  destruct (eligible db) as [|e0 el] eqn:El; [repeat split; discriminate|].
  rewrite <- El in *.
  destruct (Nat.ltb_spec (List.length (eligible db)) 3) as [C|C];
    [repeat split; discriminate|].
  destruct H as [H|H]; [lia|]. rewrite H. repeat split; discriminate.
Qed.

(** *** [/guess] *)

Lemma update_stat_counters c dc db x :
  counters (update_stat c dc db) x
  = if x =? c
    then match stat_of db c with
         | Some st => (correct_guesses st + dc, total_guesses st + 1)
         | None => (0, 0)
         end
    else counters db x.
Proof.
  unfold counters, stat_of, update_stat. simpl.
  destruct (Z.eqb_spec x c) as [->|N].
  - induction (person_stats db) as [|st l IH]; simpl; [reflexivity|].
    destruct (Z.eqb_spec (s_person_id st) c) as [E|N]; simpl.
    + now rewrite Z.eqb_refl.
    + destruct (Z.eqb_spec (s_person_id st) c); [congruence | exact IH].
  - induction (person_stats db) as [|st l IH]; simpl; [reflexivity|].
    destruct (Z.eqb_spec (s_person_id st) c) as [E|N']; simpl.
    + destruct (Z.eqb_spec c x); [congruence|].
      destruct (Z.eqb_spec (s_person_id st) x); [congruence | exact IH].
    + destruct (s_person_id st =? x); [reflexivity | exact IH].
Qed.

(** One guess on [c]: [total_guesses] of [c] goes up by one,
    [correct_guesses] by one when the guess was right, and nobody else's
    counters move. *)
Lemma record_guess_counters c b db db1 :
  record_guess c b db = Some db1 ->
  counters db1 c
  = (fst (counters db c) + (if b then 1 else 0), snd (counters db c) + 1)
  /\ (forall x, x <> c -> counters db1 x = counters db x).
Proof.
  unfold record_guess. destruct (stat_of db c) as [st|] eqn:S.
  - intros [= <-]. split.
    + rewrite update_stat_counters, Z.eqb_refl, S.
      unfold counters. now rewrite S.
    + intros x N. rewrite update_stat_counters.
      destruct (Z.eqb_spec x c); [congruence | reflexivity].
  - unfold insert_stat. destruct (person_by_id db c); [|discriminate].
    intros [= <-]. unfold counters, stat_of in *. simpl. split.
    + rewrite (DbFacts.find_insert_row_self (mkStat c _ 1) _ S), S. simpl.
      destruct b; reflexivity.
    + intros x N. rewrite DbFacts.find_insert_row_other; [reflexivity|].
      simpl. congruence.
Qed.

Lemma record_guess_Some c b db p :
  person_by_id db c = Some p -> exists db1, record_guess c b db = Some db1.
Proof.
  intros H. unfold record_guess, insert_stat.
  destruct (stat_of db c); [eauto|]. rewrite H. eauto.
Qed.

Lemma rem_remaining s c :
  In c (rem s) -> remaining_people s = Some (Some (rem s)).
Proof.
  unfold rem, get_remaining. destruct (remaining_people s) as [[l|]|]; simpl; tauto.
Qed.

(** A guess on a pending round is scored: the answer is the JSON body and
    the session is [scored_session]. *)
Lemma guess_scored choice db s c :
  inv (db, s) -> correct_person_id s = Some c ->
  exists p db1,
    person_by_id db c = Some p
    /\ In c (rem s)
    /\ let result :=
         match choice with Some ch => String.eqb ch (p_name p) | None => false end in
       record_guess c result db = Some db1
       /\ guess choice db s
          = (Json choice (p_name p) result
               (mkScore (if result then right (get_score s) + 1 else right (get_score s))
                        (total (get_score s) + 1))
               (all_shown (scored_session choice (p_name p) result c (rem s) s)),
             db1, scored_session choice (p_name p) result c (rem s) s).
Proof.
  intros [Hdb Hrem Hround _] Hc. simpl in *.
  destruct (Hround c Hc) as [Hcur Hin].
  pose proof (rem_remaining s c Hin) as Hl.
  unfold remaining_ok in Hrem. rewrite Hl in Hrem.
  destruct Hrem as (_ & _ & Hids & _).
  destruct (person_by_id_known db c (Hids c Hin)) as [p Hp].
  destruct (record_guess_Some c
              (match choice with Some ch => String.eqb ch (p_name p) | None => false end)
              db p Hp) as [db1 Hr].
  exists p, db1. split; [assumption|]. split; [assumption|]. split; [assumption|].
  unfold guess. rewrite Hc, Hp, Hr. unfold drop_current. simpl.
  rewrite Hl, Hcur. rewrite (proj2 (PyFacts.mem_In c (rem s)) Hin).
  unfold scored_session.
  destruct (Py.remove c (rem s)); reflexivity.
Qed.

(** A guess without a pending round changes nothing. *)
Lemma guess_stale choice db s :
  correct_person_id s = None -> guess choice db s = (Redirect "quiz", db, s).
Proof. unfold guess. now intros ->. Qed.

End RouteFacts.

(** ** The invariant of the reachable states *)

Module Invariant.
Import Db Sess App Spec DbFacts RouteFacts.

Lemma remaining_ok_grows db db' s :
  grows db db' -> remaining_ok db s -> remaining_ok db' s.
Proof.
  intros G. unfold remaining_ok. destruct (remaining_people s) as [[l|]|]; auto.
  intros (Hne & Hnd & Hids & Ha & He). repeat split; auto.
  - intros x Hx. eapply grows_ids; eauto.
  - pose proof (grows_eligible _ _ G). lia.
Qed.

Lemma inv_db_step db db' s :
  db_ok db' -> grows db db' -> inv (db, s) -> inv (db', s).
Proof.
  intros Hok G [_ R Ro Sc]. split; simpl in *; auto.
  eapply remaining_ok_grows; eauto.
Qed.

Lemma inv_other s' req st : inv st -> inv (step (Other s' req) st).
Proof.
  destruct st as [db s]. intros H. simpl.
  pose proof (handle_db req db s' (inv_db _ H)) as [Hok G].
  destruct (handle req db s') as [[resp db'] s'']. simpl in *.
  eapply inv_db_step; eauto.
Qed.

Lemma input_songs_post_session name t1 t2 t3 db s :
  snd (input_songs_post name t1 t2 t3 db s) = s.
Proof.
  unfold input_songs_post.
  destruct name, t1, t2, t3; try reflexivity.
  destruct (negb _ || _); [reflexivity|].
  destruct (person_by_name _ _); reflexivity.
Qed.

Lemma inv_quiz r db s : inv (db, s) -> inv (step (Own (Quiz r)) (db, s)).
Proof.
  intros H. pose proof H as [Hdb Hrem Hround Hscore]. simpl in *.
  destruct (Nat.ltb_spec (List.length (eligible db)) 3) as [C|C].
  { pose proof (quiz_db r db s) as Ed.
    destruct (quiz_idle r db s (or_introl C)) as (Es & _).
    destruct (quiz r db s) as [[resp db'] s']. simpl in *. now subst. }
  destruct (all_shown s) eqn:A.
  { pose proof (quiz_db r db s) as Ed.
    destruct (quiz_idle r db s (or_intror A)) as (Es & _).
    destruct (quiz r db s) as [[resp db'] s']. simpl in *. now subst. }
  destruct (quiz_round r db s Hdb Hrem A C) as (pid & p & x & y & Hc & Hp & Hs & Hq).
  rewrite Hq. clear Hq.
  destruct (draw_pool_ok db s Hdb Hrem A C) as (Hne & Hnd & Hin).
  split; simpl; auto.
  - unfold remaining_ok. simpl. auto.
  - intros c [= <-]. split; [reflexivity|].
    unfold rem, get_remaining. simpl. eapply PyFacts.choice_In, Hc.
Qed.

Lemma score_ok_scored choice name result c l s :
  score_ok s -> score_ok (scored_session choice name result c l s).
Proof.
  unfold score_ok. intros [Ht Hr].
  change (get_history (scored_session choice name result c l s))
    with (get_history s ++ [mkRound choice name result (get_track_ids s)])%list.
  change (get_score (scored_session choice name result c l s))
    with (mkScore (if result then right (get_score s) + 1 else right (get_score s))
                  (total (get_score s) + 1)).
  rewrite filter_app, !length_app. simpl.
  split; [lia|]. destruct result; simpl; lia.
Qed.

Lemma inv_guess choice db s : inv (db, s) -> inv (step (Own (Guess choice)) (db, s)).
Proof.
  intros H. simpl. destruct (correct_person_id s) as [c|] eqn:Hc.
  - destruct (guess_scored choice db s c H Hc) as (p & db1 & Hp & Hin & Hr & Hg).
    rewrite Hg. clear Hg.
    apply record_guess_same in Hr as (Ep & Et & Es & _).
    destruct H as [Hdb Hrem Hround Hscore]. simpl in *.
    pose proof (rem_remaining s c Hin) as Hl.
    unfold remaining_ok in Hrem. rewrite Hl in Hrem.
    destruct Hrem as (Hne & Hnd & Hids & Ha & He).
    split; simpl.
    + now apply (db_ok_same db).
    + unfold remaining_ok, scored_session. simpl.
      destruct (Py.remove c (rem s)) as [|z l'] eqn:R; simpl; [auto|].
      repeat split; auto.
      * discriminate.
      * rewrite <- R. now apply PyFacts.remove_NoDup.
      * intros x Hx. change (In x (z :: l')) in Hx. rewrite <- R in Hx. unfold ids. rewrite Ep. apply Hids.
        eapply PyFacts.remove_In, Hx.
      * now rewrite (eligible_same _ _ Ep Et).
    + intros c'. simpl. discriminate.
    + now apply score_ok_scored.
  - now rewrite (guess_stale choice db s Hc).
Qed.

Lemma inv_session_frame db s s' :
  remaining_people s' = remaining_people s -> all_shown s' = all_shown s ->
  current_person_id s' = current_person_id s ->
  correct_person_id s' = correct_person_id s ->
  score s' = score s -> history s' = history s ->
  inv (db, s) -> inv (db, s').
Proof.
  intros E1 E2 E3 E4 E5 E6 [Hdb Hrem Hround Hscore]. split; simpl in *.
  - assumption.
  - unfold remaining_ok in *. now rewrite E1, E2, E4, E5, E6.
  - unfold round_ok, rem, get_remaining in *. now rewrite E1, E3, E4.
  - unfold score_ok, get_score, get_history in *. now rewrite E5, E6.
Qed.

Lemma inv_own req st : inv st -> inv (step (Own req) st).
Proof.
  destruct st as [db s]. intros H. destruct req; try exact H.
  - (* /input-songs *)
    simpl. pose proof (handle_db (InputSongsPost name t1 t2 t3) db s (inv_db _ H)) as [Hok G].
    pose proof (input_songs_post_session name t1 t2 t3 db s) as Es.
    simpl in *. destruct (input_songs_post name t1 t2 t3 db s) as [[resp db'] s'].
    simpl in *. subst. eapply inv_db_step; eauto.
  - now apply inv_quiz.
  - now apply inv_guess.
  - (* /enter-name *)
    simpl. unfold enter_name. destruct (negb (all_shown s)); [exact H|].
    destruct m; [exact H|]. destruct (negb (Py.nonempty _)); [exact H|].
    simpl. apply (inv_db_step db); [now apply (db_ok_same db), H | now apply grows_same |].
    now apply (inv_session_frame db s).
  - (* /skip-name *)
    simpl. unfold skip_name. destruct (_ && _); [|exact H].
    now apply (inv_session_frame db s).
  - (* /reset *)
    destruct H as [Hdb _ _ _]. split; simpl in *.
    + assumption.
    + unfold remaining_ok. simpl. auto.
    + intros c. simpl. discriminate.
    + split; reflexivity.
Qed.

Lemma inv_step ev st : inv st -> inv (step ev st).
Proof. destruct ev; [apply inv_own | apply inv_other]. Qed.

Lemma inv_init : inv (Db.empty, Sess.empty).
Proof.
  split; simpl.
  - split; constructor.
  - unfold remaining_ok. simpl. auto.
  - intros c. discriminate.
  - split; reflexivity.
Qed.

Lemma reachable_inv st : reachable st -> inv st.
Proof. induction 1; [apply inv_init | now apply inv_step]. Qed.

Lemma reachable_run evs st : reachable st -> reachable (run evs st).
Proof.
  revert st. induction evs as [|ev evs IH]; simpl; intros st H; [assumption|].
  apply IH. now constructor.
Qed.

Lemma inv_run evs st : inv st -> inv (run evs st).
Proof.
  revert st. induction evs as [|ev evs IH]; simpl; intros st H; [assumption|].
  apply IH. now apply inv_step.
Qed.

End Invariant.

(** ** Rounds of one game *)

Module Rounds.
Import Db Sess App Spec DbFacts RouteFacts Invariant.

Lemma rem_scored_session choice name result c l s :
  rem (scored_session choice name result c l s) = Py.remove c l.
Proof.
  unfold rem, get_remaining, scored_session. simpl.
  now destruct (Py.remove c l).
Qed.

Lemma started_all_shown db s :
  remaining_ok db s -> started s -> (all_shown s = true <-> rem s = []).
Proof.
  unfold remaining_ok, started, rem, get_remaining.
  destruct (remaining_people s) as [[l|]|]; simpl.
  - intros (Hne & _ & _ & A & _) _. rewrite A. split; [discriminate | tauto].
  - intros [A _] _. rewrite A. tauto.
  - tauto.
Qed.

(** One event of a started game without [/reset]: the subject of a scored
    guess leaves the remaining list, and nothing else changes the list. *)
Lemma cover_step ev st :
  inv st -> started (snd st) -> is_reset ev = false ->
  Permutation (opt_list (scored ev st) ++ rem (snd (step ev st))) (rem (snd st))
  /\ started (snd (step ev st)).
Proof.
  destruct st as [db s]. intros H St Nr.
  destruct ev as [req|s' req].
  2:{ simpl. destruct (handle req db s') as [[resp db'] s'']. simpl. auto. }
  destruct req; try discriminate; try (simpl; auto; fail).
  - (* /input-songs *)
    unfold scored, response_of, step.
    pose proof (input_songs_post_session name t1 t2 t3 db s) as Es. simpl in *.
    destruct (input_songs_post name t1 t2 t3 db s) as [[resp db'] s2].
    simpl in *. subst. auto.
  - (* /quiz *)
    assert (Hs : scored (Own (Quiz r)) (db, s) = None).
    { unfold scored, response_of. simpl.
      destruct (quiz r db s) as [[resp db'] s2]. now destruct resp. }
    rewrite Hs. simpl opt_list. simpl app.
    pose proof H as [Hdb Hrem _ _]. simpl in Hdb, Hrem.
    destruct (Nat.ltb_spec (List.length (eligible db)) 3) as [C|C].
    { destruct (quiz_idle r db s (or_introl C)) as (Es & _).
      simpl. destruct (quiz r db s) as [[resp db'] s2]. simpl in *. now subst. }
    destruct (all_shown s) eqn:A.
    { destruct (quiz_idle r db s (or_intror A)) as (Es & _).
      simpl. destruct (quiz r db s) as [[resp db'] s2]. simpl in *. now subst. }
    destruct (quiz_round r db s Hdb Hrem A C) as (pid & p & x & y & _ & _ & _ & Hq).
    simpl. rewrite Hq. simpl. split; [|discriminate].
    unfold rem at 1, get_remaining. simpl.
    unfold draw_pool, rem. unfold started in St. simpl in St.
    unfold remaining_ok in Hrem. unfold get_remaining.
    destruct (remaining_people s) as [[l|]|]; [reflexivity | | congruence].
    destruct Hrem; congruence.
  - (* /guess *)
    destruct (correct_person_id s) as [c|] eqn:Hc.
    + destruct (guess_scored choice db s c H Hc) as (p & db1 & _ & Hin & _ & Hg).
      unfold scored, response_of, step. simpl. rewrite Hg, Hc. simpl.
      rewrite rem_scored_session. split.
      * now apply PyFacts.remove_perm.
      * unfold started, scored_session. simpl.
        destruct (Py.remove c (rem s)); discriminate.
    + unfold scored, response_of, step. simpl.
      rewrite (guess_stale choice db s Hc). simpl. auto.
  - (* /enter-name *)
    unfold scored, response_of, step. simpl. unfold enter_name.
    destruct (negb (all_shown s)); [simpl; auto|].
    destruct m; [simpl; auto|].
    destruct (negb (Py.nonempty _)); simpl; auto.
  - (* /skip-name *)
    unfold scored, response_of, step. simpl. unfold skip_name.
    destruct (_ && _); simpl; auto.
Qed.

Lemma cover_run evs st :
  inv st -> started (snd st) -> no_reset evs ->
  Permutation (scored_subjects evs st ++ rem (snd (run evs st))) (rem (snd st))
  /\ started (snd (run evs st)).
Proof.
  revert st. induction evs as [|ev evs IH]; intros st H St Nr; simpl.
  - auto.
  - inversion Nr as [|? ? Nev Nevs]; subst.
    destruct (cover_step ev st H St Nev) as [P1 St1].
    destruct (IH (step ev st) (inv_step _ _ H) St1 Nevs) as [P2 St2].
    split; [|assumption].
    rewrite <- app_assoc, P2. exact P1.
Qed.

(** The first round request of a game stores the ids of the eligible. *)
Lemma first_round r st :
  inv st -> remaining_people (snd st) = None ->
  (3 <= List.length (eligible (fst st)))%nat ->
  rem (snd (step (Own (Quiz r)) st)) = map p_id (eligible (fst st))
  /\ started (snd (step (Own (Quiz r)) st)).
Proof.
  destruct st as [db s]. intros H E C. pose proof H as [Hdb Hrem _ _].
  simpl in *. pose proof Hrem as Hrem'. unfold remaining_ok in Hrem'.
  rewrite E in Hrem'. destruct Hrem' as (A & _).
  destruct (quiz_round r db s Hdb Hrem A C) as (pid & p & x & y & _ & _ & _ & Hq).
  rewrite Hq. simpl. split; [|discriminate].
  unfold rem, get_remaining, draw_pool. simpl. unfold get_remaining. now rewrite E.
Qed.

End Rounds.

(** ** The game covers the eligible players *)

Module Coverage.
Import Db Sess App Spec DbFacts RouteFacts Invariant Rounds.

(** C1, as amended.  A game starts with the first round request of a
    session that has no remaining list, at least three players being
    eligible.  Along any run without [/reset] that follows, the subjects of
    the scored guesses together with the remaining list are a permutation
    of the ids eligible at the start: no subject is scored twice, the number
    of scored rounds plus the length of the remaining list is the number of
    eligible players, and [all_shown] holds exactly when the remaining list
    is empty, that is when the scored rounds are as many as the eligible
    players.  A guess on a pending round is scored and removes exactly its
    subject, a member of the remaining list, from it.  (A round request
    repeated before the guess draws again, so a player can be drawn more
    than once; only the scored subjects are distinct.) *)
Theorem C1_scored_rounds_cover_the_eligible
    (st : State) (r : Py.Rand) (evs : list Event) :
  reachable st ->
  remaining_people (snd st) = None ->
  (3 <= List.length (eligible (fst st)))%nat ->
  no_reset evs ->
  let start := step (Own (Quiz r)) st in
  let final := run evs start in
  Permutation (scored_subjects evs start ++ rem (snd final))
              (map p_id (eligible (fst st)))
  /\ NoDup (scored_subjects evs start)
  /\ (List.length (scored_subjects evs start) + List.length (rem (snd final))
      = List.length (eligible (fst st)))%nat
  /\ (all_shown (snd final) = true <-> rem (snd final) = [])
  /\ (all_shown (snd final) = true
      <-> List.length (scored_subjects evs start) = List.length (eligible (fst st)))
  /\ (forall choice c,
        correct_person_id (snd final) = Some c ->
        In c (rem (snd final))
        /\ scored (Own (Guess choice)) final = Some c
        /\ rem (snd (step (Own (Guess choice)) final)) = Py.remove c (rem (snd final))
        /\ S (List.length (rem (snd (step (Own (Guess choice)) final))))
           = List.length (rem (snd final))).
Proof.
  intros Hreach Hfresh Hel Hnr start final.
  pose proof (reachable_inv _ Hreach) as Hinv.
  destruct (first_round r st Hinv Hfresh Hel) as [Hrem Hst].
  fold start in Hrem, Hst.
  pose proof (inv_step (Own (Quiz r)) st Hinv) as Hinv1. fold start in Hinv1.
  destruct (cover_run evs start Hinv1 Hst Hnr) as [Hperm Hst'].
  fold final in Hperm, Hst'. rewrite Hrem in Hperm.
  pose proof (inv_run evs start Hinv1) as Hinv'. fold final in Hinv'.
  assert (Hlen : (List.length (scored_subjects evs start)
                  + List.length (rem (snd final))
                  = List.length (eligible (fst st)))%nat).
  { apply Permutation_length in Hperm.
    now rewrite length_app, length_map in Hperm. }
  assert (Hnd : NoDup (scored_subjects evs start ++ rem (snd final))).
  { eapply Permutation_NoDup; [symmetry; exact Hperm|].
    apply PyFacts.NoDup_map_filter. apply (ids_NoDup _ (inv_db _ Hinv)). }
  pose proof (started_all_shown (fst final) (snd final)
                (inv_remaining _ Hinv') Hst') as Hall.
  split; [exact Hperm|]. split; [eapply NoDup_app_remove_r, Hnd|].
  split; [exact Hlen|]. split; [exact Hall|]. split.
  - rewrite Hall. split.
    + intros E. rewrite E in Hlen. simpl in Hlen. lia.
    + intros E. destruct (rem (snd final)); [reflexivity | simpl in Hlen; lia].
  - intros choice c Hc.
    destruct final as [db s] eqn:Ef. simpl in *.
    destruct (guess_scored choice db s c Hinv' Hc) as (p & db1 & _ & Hin & _ & Hg).
    split; [exact Hin|].
    unfold scored, response_of. simpl. rewrite Hg. simpl.
    rewrite rem_scored_session. split; [exact Hc|]. split; [reflexivity|].
    now apply PyFacts.remove_length.
Qed.

(** C1 on the game of Ann, Bob and Cy. *)
Lemma C1_witness :
  reachable Demo.three_players
  /\ remaining_people (snd Demo.three_players) = None
  /\ (3 <= List.length (eligible (fst Demo.three_players)))%nat
  /\ no_reset Demo.rest_of_game
  /\ Permutation
       (scored_subjects Demo.rest_of_game Demo.in_round ++ rem (snd Demo.game_over))
       (map p_id (eligible (fst Demo.three_players))).
Proof.
  assert (H1 : reachable Demo.three_players)
    by exact (reachable_run _ _ reach_init).
  assert (H2 : remaining_people (snd Demo.three_players) = None) by reflexivity.
  assert (H3 : (3 <= List.length (eligible (fst Demo.three_players)))%nat)
    by (vm_compute; lia).
  assert (H4 : no_reset Demo.rest_of_game) by (repeat constructor).
  repeat split; try assumption.
  exact (proj1 (C1_scored_rounds_cover_the_eligible
                  Demo.three_players Demo.first Demo.rest_of_game H1 H2 H3 H4)).
Defined.

(** C1 as stated fails on "no participant is ever drawn twice": in one
    game without [/reset], Ann (id 1) is drawn, a repeated round request
    draws Bob (id 2), Bob is guessed, and Ann is drawn again. *)
Lemma C1_counterexample :
  reachable Demo.three_players
  /\ remaining_people (snd Demo.three_players) = None
  /\ no_reset Demo.redraw
  /\ drawn_subjects Demo.redraw Demo.three_players = [1; 2; 1]
  /\ ~ NoDup (drawn_subjects Demo.redraw Demo.three_players).
Proof.
  split; [exact (reachable_run _ _ reach_init)|].
  split; [reflexivity|]. split; [repeat constructor|].
  assert (E : drawn_subjects Demo.redraw Demo.three_players = [1; 2; 1])
    by (vm_compute; reflexivity).
  split; [exact E|]. rewrite E. intros H.
  inversion H as [|? ? Hn _]; subst. apply Hn. simpl. auto.
Qed.

End Coverage.

(** ** Round requests and guesses *)

Module Play.
Import Db Sess App Spec DbFacts RouteFacts Invariant Rounds.

Lemma pending_running st c :
  inv st -> correct_person_id (snd st) = Some c ->
  get_remaining (snd st) = Some (rem (snd st))
  /\ all_shown (snd st) = false
  /\ (3 <= List.length (eligible (fst st)))%nat.
Proof.
  destruct st as [db s]. intros [_ Hrem Hround _] Hc. simpl in *.
  destruct (Hround c Hc) as [_ Hin].
  pose proof (rem_remaining s c Hin) as Hl.
  unfold remaining_ok in Hrem. rewrite Hl in Hrem.
  unfold get_remaining. rewrite Hl. tauto.
Qed.

(** C2, as amended.  A round request made while a round is pending draws
    again: the subject is the member of the unchanged remaining list that
    the new draw selects, the choices are the subject's name and two
    distractors drawn anew from the other eligible players, shuffled anew,
    and the new round replaces the pending one in the session.  The
    pending subject plays no part in the outcome. *)
Theorem C2_round_request_draws_again (st : State) (r : Py.Rand) (c : Z) :
  reachable st ->
  correct_person_id (snd st) = Some c ->
  exists pid p x y,
    Py.choice (Py.rnd_choice r) (rem (snd st)) = Some pid
    /\ person_by_id (fst st) pid = Some p
    /\ Py.sample2 (Py.rnd_sample r)
         (map p_name (filter (fun q => negb (p_id q =? pid)) (eligible (fst st))))
       = Some [x; y]
    /\ fst (fst (quiz r (fst st) (snd st)))
       = RenderQuiz (track_ids_of (fst st) pid)
           (Py.shuffle (Py.rnd_shuffle r) [p_name p; x; y])
           (let tp := match total_people (snd st) with
                      | Some n => n
                      | None => Z.of_nat (List.length (people (fst st)))
                      end in
            mkProgress (get_score (snd st)) tp
                       (percent_of (total (get_score (snd st))) tp))
    /\ step (Own (Quiz r)) st
       = (fst st, round_session (fst st) pid (rem (snd st)) (snd st)).
Proof.
  intros Hreach Hc. pose proof (reachable_inv _ Hreach) as Hinv.
  destruct (pending_running st c Hinv Hc) as (Hg & Ha & He).
  destruct st as [db s]. simpl in *.
  destruct (quiz_round r db s (inv_db _ Hinv) (inv_remaining _ Hinv) Ha He)
    as (pid & p & x & y & H1 & H2 & H3 & H4).
  assert (Hpool : draw_pool db s = rem s) by (unfold draw_pool; now rewrite Hg).
  rewrite Hpool in *.
  exists pid, p, x, y. rewrite H4. simpl.
  repeat split; try assumption.
  destruct (total_people s); reflexivity.
Qed.

(** C2 on the round shown to the session of Ann, Bob and Cy. *)
Lemma C2_witness :
  reachable Demo.in_round
  /\ correct_person_id (snd Demo.in_round) = Some 1
  /\ exists pid p x y,
       Py.choice (Py.rnd_choice Demo.second) (rem (snd Demo.in_round)) = Some pid
       /\ person_by_id (fst Demo.in_round) pid = Some p
       /\ Py.sample2 (Py.rnd_sample Demo.second)
            (map p_name (filter (fun q => negb (p_id q =? pid))
                                (eligible (fst Demo.in_round))))
          = Some [x; y]
       /\ fst (fst (quiz Demo.second (fst Demo.in_round) (snd Demo.in_round)))
          = RenderQuiz (track_ids_of (fst Demo.in_round) pid)
              (Py.shuffle (Py.rnd_shuffle Demo.second) [p_name p; x; y])
              (let tp := match total_people (snd Demo.in_round) with
                         | Some n => n
                         | None => Z.of_nat (List.length (people (fst Demo.in_round)))
                         end in
               mkProgress (get_score (snd Demo.in_round)) tp
                          (percent_of (total (get_score (snd Demo.in_round))) tp))
       /\ step (Own (Quiz Demo.second)) Demo.in_round
          = (fst Demo.in_round,
             round_session (fst Demo.in_round) pid (rem (snd Demo.in_round))
                           (snd Demo.in_round)).
Proof.
  assert (H1 : reachable Demo.in_round)
    by exact (reach_step _ _ (reachable_run _ _ reach_init)).
  assert (H2 : correct_person_id (snd Demo.in_round) = Some 1) by reflexivity.
  split; [exact H1|]. split; [exact H2|].
  exact (C2_round_request_draws_again Demo.in_round Demo.second 1 H1 H2).
Defined.

(** C2 as stated fails: the session was shown Ann's tracks (subject 1)
    and has not guessed; the next round request shows Bob's tracks with
    another list of choices and makes Bob (2) the pending subject. *)
Lemma C2_counterexample :
  reachable Demo.in_round
  /\ correct_person_id (snd Demo.in_round) = Some 1
  /\ response_of (Own (Quiz Demo.first)) Demo.three_players
     = Some (RenderQuiz ["abc"; "xyz"; "a3"] ["Bob"; "Cy"; "Ann"]
               (mkProgress (mkScore 0 0) 3 0))
  /\ response_of (Own (Quiz Demo.second)) Demo.in_round
     = Some (RenderQuiz ["abc"; "b2"; "b3"] ["Ann"; "Cy"; "Bob"]
               (mkProgress (mkScore 0 0) 3 0))
  /\ correct_person_id (snd (step (Own (Quiz Demo.second)) Demo.in_round)) = Some 2.
Proof.
  split; [exact (reach_step _ _ (reachable_run _ _ reach_init))|].
  repeat split; vm_compute; reflexivity.
Qed.

(** C8.  A guess sent while the session stores no [correct_person_id] is
    answered by a redirect to the round request; the session (score,
    history, remaining list and all) and the database (the guess counters
    and all) stay as they are. *)
Theorem C8_stale_guess_changes_nothing
    (choice : option string) (db : DB) (s : Session) :
  correct_person_id s = None ->
  guess choice db s = (Redirect "quiz", db, s).
Proof. intros H. now apply guess_stale. Qed.

(** C8 on a session that has not been shown a round. *)
Lemma C8_witness :
  correct_person_id (snd Demo.three_players) = None
  /\ guess (Some "Ann") (fst Demo.three_players) (snd Demo.three_players)
     = (Redirect "quiz", fst Demo.three_players, snd Demo.three_players).
Proof.
  split; [reflexivity|].
  apply (C8_stale_guess_changes_nothing (Some "Ann")). reflexivity.
Defined.

(** C10.  With a round pending on [c], a guess whose choice is missing or
    is anything but the name of [c] is not rejected: the subject is a known
    person and the answer is the JSON body of a wrong guess; [score.total]
    goes up by one and [score.right] stays, the subject's [total_guesses]
    goes up by one and its [correct_guesses] stays. *)
Theorem C10_wrong_or_missing_choice_is_scored
    (st : State) (c : Z) (choice : option string) :
  reachable st ->
  correct_person_id (snd st) = Some c ->
  (forall p, person_by_id (fst st) c = Some p -> choice <> Some (p_name p)) ->
  exists p,
    person_by_id (fst st) c = Some p
    /\ let sc := get_score (snd st) in
       let res := guess choice (fst st) (snd st) in
       let sc' := mkScore (right sc) (total sc + 1) in
       fst (fst res) = Json choice (p_name p) false sc' (all_shown (snd res))
       /\ get_score (snd res) = sc'
       /\ counters (snd (fst res)) c
          = (fst (counters (fst st) c), snd (counters (fst st) c) + 1).
Proof.
  intros Hreach Hc Hne. pose proof (reachable_inv _ Hreach) as Hinv.
  destruct st as [db s]. simpl in *.
  destruct (guess_scored choice db s c Hinv Hc) as (p & db1 & Hp & _ & Hr & Hg).
  exists p. split; [exact Hp|]. specialize (Hne p Hp).
  assert (E : match choice with
              | Some ch => String.eqb ch (p_name p)
              | None => false
              end = false).
  { destruct choice as [ch|]; [|reflexivity].
    destruct (String.eqb_spec ch (p_name p)); [congruence | reflexivity]. }
  rewrite E in *. rewrite Hg. simpl.
  repeat split.
  apply record_guess_counters in Hr as [Hr _]. rewrite Hr. f_equal. lia.
Qed.

(** C10 on the round about Ann, answered with no choice at all. *)
Lemma C10_witness :
  reachable Demo.in_round
  /\ correct_person_id (snd Demo.in_round) = Some 1
  /\ (forall p, person_by_id (fst Demo.in_round) 1 = Some p -> None <> Some (p_name p))
  /\ exists p,
       person_by_id (fst Demo.in_round) 1 = Some p
       /\ let sc := get_score (snd Demo.in_round) in
          let res := guess None (fst Demo.in_round) (snd Demo.in_round) in
          let sc' := mkScore (right sc) (total sc + 1) in
          fst (fst res) = Json None (p_name p) false sc' (all_shown (snd res))
          /\ get_score (snd res) = sc'
          /\ counters (snd (fst res)) 1
             = (fst (counters (fst Demo.in_round) 1),
                snd (counters (fst Demo.in_round) 1) + 1).
Proof.
  assert (H1 : reachable Demo.in_round)
    by exact (reach_step _ _ (reachable_run _ _ reach_init)).
  assert (H2 : correct_person_id (snd Demo.in_round) = Some 1) by reflexivity.
  assert (H3 : forall p, person_by_id (fst Demo.in_round) 1 = Some p ->
                         None <> Some (p_name p)) by discriminate.
  split; [exact H1|]. split; [exact H2|]. split; [exact H3|].
  exact (C10_wrong_or_missing_choice_is_scored Demo.in_round 1 None H1 H2 H3).
Defined.

End Play.

(** ** Score and history *)

Module Tally.
Import Db Sess App Spec DbFacts RouteFacts Invariant Rounds.

Lemma quiz_not_json r db s : is_json (fst (fst (quiz r db s))) = false.
Proof.
  unfold quiz. destruct (eligible db); [reflexivity|].
  destruct (_ <? 3)%nat; [reflexivity|]. destruct (all_shown s); [reflexivity|].
  destruct (match get_remaining s with Some _ => _ | None => _ end) as [pool s1].
  destruct (Py.choice _ pool); [|reflexivity].
  destruct (person_by_id db z); [|reflexivity].
  destruct (Py.sample2 _ _); reflexivity.
Qed.

Lemma quiz_tally r db s :
  inv (db, s) ->
  get_history (snd (quiz r db s)) = get_history s
  /\ get_score (snd (quiz r db s)) = get_score s.
Proof.
  intros H. pose proof H as [Hdb Hrem _ _]. simpl in *.
  destruct (Nat.ltb_spec (List.length (eligible db)) 3) as [C|C].
  { destruct (quiz_idle r db s (or_introl C)) as (-> & _). auto. }
  destruct (all_shown s) eqn:A.
  { destruct (quiz_idle r db s (or_intror A)) as (-> & _). auto. }
  destruct (quiz_round r db s Hdb Hrem A C) as (pid & p & x & y & _ & _ & _ & Hq).
  rewrite Hq. auto.
Qed.

Lemma input_songs_post_not_json name t1 t2 t3 db s :
  is_json (fst (fst (input_songs_post name t1 t2 t3 db s))) = false.
Proof.
  unfold input_songs_post.
  destruct name, t1, t2, t3; try reflexivity.
  destruct (negb _ || _); [reflexivity|].
  destruct (person_by_name _ _); reflexivity.
Qed.

(** What one request does to the score and the history. *)
Lemma tally_step req db s :
  inv (db, s) ->
  let resp := fst (fst (handle req db s)) in
  let s' := snd (handle req db s) in
  if is_json resp
  then (exists round, get_history s' = (get_history s ++ [round])%list)
       /\ total (get_score s') = total (get_score s) + 1
  else match req with
       | Reset => history s' = None /\ score s' = None
       | _ => get_history s' = get_history s /\ get_score s' = get_score s
       end.
Proof.
  intros H. destruct req; simpl; auto.
  - rewrite input_songs_post_not_json, input_songs_post_session. auto.
  - rewrite quiz_not_json. now apply quiz_tally.
  - destruct (correct_person_id s) as [c|] eqn:Hc.
    + destruct (guess_scored choice db s c H Hc) as (p & db1 & _ & _ & _ & Hg).
      rewrite Hg. simpl. split; [eexists; reflexivity | reflexivity].
    + rewrite (guess_stale choice db s Hc). simpl. auto.
  - unfold enter_name. destruct (negb (all_shown s)); [simpl; auto|].
    destruct m; [simpl; auto|].
    destruct (negb (Py.nonempty _)); simpl; auto.
  - unfold skip_name. destruct (_ && _); simpl; auto.
Qed.

(** No request of the session ends in an unhandled exception. *)
Lemma request_answered req st :
  reachable st ->
  is_server_error (fst (fst (handle req (fst st) (snd st)))) = false.
Proof.
  intros Hreach. pose proof (reachable_inv _ Hreach) as H.
  destruct st as [db s]. pose proof H as [Hdb Hrem _ _]. simpl in *.
  destruct req; simpl; auto.
  - now destruct (input_songs_post_db name t1 t2 t3 db s Hdb) as (_ & _ & E).
  - destruct (Nat.ltb_spec (List.length (eligible db)) 3) as [C|C].
    { now destruct (quiz_idle r db s (or_introl C)) as (_ & E & _). }
    destruct (all_shown s) eqn:A.
    { now destruct (quiz_idle r db s (or_intror A)) as (_ & E & _). }
    destruct (quiz_round r db s Hdb Hrem A C) as (pid & p & x & y & _ & _ & _ & Hq).
    now rewrite Hq.
  - destruct (correct_person_id s) as [c|] eqn:Hc.
    + destruct (guess_scored choice db s c H Hc) as (p & db1 & _ & _ & _ & Hg).
      now rewrite Hg.
    + now rewrite (guess_stale choice db s Hc).
  - unfold enter_name. destruct (negb (all_shown s)); [reflexivity|].
    destruct m; [reflexivity|]. now destruct (negb (Py.nonempty _)).
  - unfold skip_name. now destruct (_ && _).
Qed.

(** C9.  In every reachable state [score.total] is the length of the
    history and [score.right] the number of its entries with [is_right], so
    [0 <= score.right <= score.total].  A scored guess (the JSON answer)
    appends exactly one entry to the history and adds one to [score.total];
    [/reset] drops score and history together; every other request leaves
    both, and so every entry of the history, as they were. *)
Theorem C9_score_counts_history (st : State) (req : Request) :
  reachable st ->
  let s := snd st in
  let resp := fst (fst (handle req (fst st) s)) in
  let s' := snd (handle req (fst st) s) in
  total (get_score s) = Z.of_nat (List.length (get_history s))
  /\ right (get_score s)
     = Z.of_nat (List.length (filter is_right (get_history s)))
  /\ 0 <= right (get_score s) <= total (get_score s)
  /\ (if is_json resp
      then (exists round, get_history s' = (get_history s ++ [round])%list)
           /\ total (get_score s') = total (get_score s) + 1
      else match req with
           | Reset => history s' = None /\ score s' = None
           | _ => get_history s' = get_history s /\ get_score s' = get_score s
           end).
Proof.
  intros Hreach s resp s'. pose proof (reachable_inv _ Hreach) as Hinv.
  destruct (inv_score _ Hinv) as [Ht Hr]. fold s in Ht, Hr.
  split; [exact Ht|]. split; [exact Hr|]. split.
  - rewrite Ht, Hr.
    pose proof (filter_length_le is_right (get_history s)). lia.
  - destruct st as [db s0]. apply (tally_step req db s0 Hinv).
Qed.

(** C9 on the last guess of the game of Ann, Bob and Cy. *)
Lemma C9_witness :
  reachable Demo.game_over
  /\ total (get_score (snd Demo.game_over)) = 3
  /\ right (get_score (snd Demo.game_over)) = 2
  /\ List.length (get_history (snd Demo.game_over)) = 3%nat.
Proof.
  assert (H : reachable Demo.game_over)
    by exact (reachable_run _ _ (reach_step _ _ (reachable_run _ _ reach_init))).
  split; [exact H|].
  destruct (C9_score_counts_history Demo.game_over Index H) as (Ht & Hr & _).
  split; [rewrite Ht; reflexivity|]. split; [rewrite Hr|]; reflexivity.
Defined.

End Tally.

(** ** The summary page and the leaderboard *)

Module SortFacts.
Import Py.

Section Sorted.
Context {A : Type} (le : A -> A -> bool).
Hypothesis le_total : forall a b, le a b = true \/ le b a = true.
Hypothesis le_trans : forall a b c, le a b = true -> le b c = true -> le a c = true.

Lemma insert_by_In x y l : In y (insert_by le x l) <-> y = x \/ In y l.
Proof.
  induction l as [|z l IH]; simpl.
  - intuition.
  - destruct (le x z); simpl; [intuition | rewrite IH; intuition].
Qed.

Lemma sort_by_In y l : In y (sort_by le l) <-> In y l.
Proof.
  induction l as [|x l IH]; simpl; [tauto|].
  rewrite insert_by_In, IH. intuition.
Qed.

Lemma sort_by_nil l : sort_by le l = [] <-> l = [].
Proof.
  split; [|now intros ->].
  destruct l as [|x l]; [reflexivity|]. intros E.
  assert (H : In x (sort_by le (x :: l))) by (apply sort_by_In; now left).
  rewrite E in H. destruct H.
Qed.

Lemma insert_by_hd x l :
  hd_error (insert_by le x l)
  = Some (match l with
          | [] => x
          | y :: _ => if le x y then x else y
          end).
Proof. destruct l as [|y l]; simpl; [reflexivity|]. now destruct (le x y). Qed.

(** The head of the sorted list may stand before every element. *)
Lemma sort_by_hd_min l m :
  hd_error (sort_by le l) = Some m ->
  In m l /\ forall y, In y l -> le m y = true.
Proof.
  intros H. split.
  { apply (sort_by_In m l). destruct (sort_by le l); [discriminate|].
    injection H as ->. now left. }
  revert m H. induction l as [|a l IH]; simpl; intros m H y Hy; [tauto|].
  rewrite insert_by_hd in H. injection H as <-.
  destruct (sort_by le l) as [|h t] eqn:S.
  - apply (proj1 (sort_by_nil l)) in S. rewrite S in Hy.
    destruct Hy as [<-|[]].
    destruct (le_total a a); assumption.
  - specialize (IH h eq_refl). destruct (le a h) eqn:L.
    + destruct Hy as [<-|Hy].
      * destruct (le_total a a); assumption.
      * eapply le_trans; [exact L | now apply IH].
    + destruct Hy as [<-|Hy]; [|now apply IH].
      destruct (le_total a h); congruence.
Qed.
End Sorted.

End SortFacts.

Module Summary.
Import Db Sess App Spec DbFacts Invariant.

Lemma chameleon_le_spec a b :
  chameleon_le a b = true
  <-> ch_rate a < ch_rate b \/ (ch_rate a = ch_rate b /\ ch_total b <= ch_total a).
Proof.
  unfold chameleon_le.
  rewrite orb_true_iff, andb_true_iff, Z.ltb_lt, Z.eqb_eq, Z.leb_le. tauto.
Qed.

Lemma chameleon_le_total a b : chameleon_le a b = true \/ chameleon_le b a = true.
Proof. rewrite !chameleon_le_spec. lia. Qed.

Lemma chameleon_le_trans a b c :
  chameleon_le a b = true -> chameleon_le b c = true -> chameleon_le a c = true.
Proof. rewrite !chameleon_le_spec. lia. Qed.

Lemma chameleon_rows_spec db row :
  In row (chameleon_rows db)
  <-> exists st p,
        In st (person_stats db) /\ In p (people db)
        /\ p_id p = s_person_id st /\ 3 <= total_guesses st
        /\ row = mkChameleon (p_name p) (correct_guesses st) (total_guesses st)
                   (success_rate (correct_guesses st) (total_guesses st)).
Proof.
  unfold chameleon_rows. rewrite in_flat_map. split.
  - intros (st & Hst & H). destruct (Z.leb_spec 3 (total_guesses st)); [|destruct H].
    apply in_map_iff in H as (p & <- & Hp). apply filter_In in Hp as [Hp E].
    apply Z.eqb_eq in E. exists st, p. auto.
  - intros (st & p & Hst & Hp & E & T & ->). exists st. split; [assumption|].
    destruct (Z.leb_spec 3 (total_guesses st)); [|lia].
    apply in_map_iff. exists p. split; [reflexivity|].
    apply filter_In. split; [assumption | now apply Z.eqb_eq].
Qed.

(** [success_rate] is the quotient [100 c / t] rounded to the nearest
    tenth of a percent, a half going up: it is the one [r] with
    [r - 1/2 <= 1000 c / t < r + 1/2]. *)
Lemma success_rate_rounds c t r :
  0 < t ->
  success_rate c t = r <-> 2 * t * r <= 2000 * c + t < 2 * t * (r + 1).
Proof.
  intros Ht. unfold success_rate. split.
  - intros <-.
    pose proof (Z.mul_div_le (2000 * c + t) (2 * t) ltac:(lia)).
    pose proof (Z.mul_succ_div_gt (2000 * c + t) (2 * t) ltac:(lia)).
    lia.
  - intros H. symmetry.
    apply (Z.div_unique _ _ r (2000 * c + t - 2 * t * r)); lia.
Qed.

(** What the chameleon query does.  It ranges over exactly the people
    whose statistics row has [total_guesses >= 3]; it returns nothing
    exactly when there is none; otherwise it returns one of them whose
    success rate, rounded to one decimal of a percent, is minimal, with
    the highest [total_guesses] among those of that rounded rate.  With X
    at 1 of 4, Y at 2 of 3 and Z at two guesses it returns X. *)
Lemma chameleon_by_rounded_rate (db : DB) :
  (forall row,
     In row (chameleon_rows db)
     <-> exists st p,
           In st (person_stats db) /\ In p (people db)
           /\ p_id p = s_person_id st /\ 3 <= total_guesses st
           /\ row = mkChameleon (p_name p) (correct_guesses st) (total_guesses st)
                      (success_rate (correct_guesses st) (total_guesses st)))
  /\ (chameleon db = None <-> chameleon_rows db = [])
  /\ (forall m,
        chameleon db = Some m ->
        In m (chameleon_rows db)
        /\ forall row,
             In row (chameleon_rows db) ->
             ch_rate m < ch_rate row
             \/ (ch_rate m = ch_rate row /\ ch_total row <= ch_total m))
  /\ (forall zc, chameleon (Demo.xyz_stats zc) = Some (mkChameleon "X" 1 4 250)).
Proof.
  split; [apply chameleon_rows_spec|]. split; [|split].
  - unfold chameleon. rewrite <- (SortFacts.sort_by_nil chameleon_le).
    destruct (Py.sort_by chameleon_le (chameleon_rows db)); simpl;
      split; congruence.
  - intros m H.
    destruct (SortFacts.sort_by_hd_min chameleon_le chameleon_le_total
                chameleon_le_trans _ _ H) as [Hin Hmin].
    split; [exact Hin|]. intros row Hrow.
    apply chameleon_le_spec. now apply Hmin.
  - intros zc. reflexivity.
Qed.

(** On a full tie the row of the lower [person_id] wins, whoever was
    guessed first: [person_stats] is read in the order of its key.  Bob
    is guessed three times, then Ann three times, all wrong. *)
Lemma chameleon_full_tie :
  let db :=
    fst (run (Demo.guesses 2 "Bob" 0 3 ++ Demo.guesses 1 "Ann" 0 3)%list
             Demo.three_players) in
  person_stats db = [mkStat 1 0 3; mkStat 2 0 3]
  /\ chameleon db = Some (mkChameleon "Ann" 0 3 0).
Proof. vm_compute. split; reflexivity. Qed.

(** C6: Ann was guessed 1 time out of 20 (5 percent) and Bob 6 times out
    of 119 (5.04 percent); nobody else was guessed.  Both are past the
    threshold of three guesses and Ann has the lowest rate, but the query
    orders by the rate rounded to one decimal of a percent (the nearest
    tenth, a half going up): both rates round to 5.0, the tie goes to the
    higher [total_guesses], and the summary page names Bob as the best
    chameleon. *)
Theorem C6_chameleon_is_not_the_lowest_rate :
  reachable Demo.close_rates
  /\ person_by_id (fst Demo.close_rates) 1 = Some (mkPerson 1 "Ann")
  /\ person_by_id (fst Demo.close_rates) 2 = Some (mkPerson 2 "Bob")
  /\ person_stats (fst Demo.close_rates) = [mkStat 1 1 20; mkStat 2 6 119]
  /\ 1 * 119 < 6 * 20
  /\ (forall c t r,
        0 <= c -> 0 < t ->
        success_rate c t = r <-> 2 * t * r <= 2000 * c + t < 2 * t * (r + 1))
  /\ success_rate 1 20 = 50
  /\ success_rate 6 119 = 50
  /\ chameleon (fst Demo.close_rates) = Some (mkChameleon "Bob" 6 119 50)
  /\ exists sc last hist shared entries modal,
       response_of (Own Finished) Demo.close_rates
       = Some (RenderFinished sc last hist shared entries
                 (Some (mkChameleon "Bob" 6 119 50)) modal).
Proof.
  split; [exact (reachable_run _ _ (reachable_run _ _ reach_init))|].
  split; [vm_compute; reflexivity|]. split; [vm_compute; reflexivity|].
  split; [vm_compute; reflexivity|]. split; [lia|].
  split; [intros c t r _ Ht; now apply success_rate_rounds|].
  split; [reflexivity|]. split; [reflexivity|].
  assert (Hc : chameleon (fst Demo.close_rates)
               = Some (mkChameleon "Bob" 6 119 50)) by (vm_compute; reflexivity).
  split; [exact Hc|].
  unfold response_of, handle, finished. rewrite Hc.
  do 6 eexists. reflexivity.
Qed.

(** *** Entering a name *)

(** A name posted after the game is inserted whatever [name_submitted]
    holds. *)
Lemma enter_name_inserts name now db s :
  all_shown s = true -> Py.nonempty (Py.strip name) = true ->
  enter_name POST (Some name) now db s
  = (Redirect "finished",
     insert_entry (Py.strip name) (right (get_score s)) (total (get_score s))
       (percent_of (right (get_score s)) (total (get_score s))) now db,
     set_name_submitted true s).
Proof. unfold enter_name. now intros -> ->. Qed.

Lemma skip_name_db db s : snd (fst (skip_name db s)) = db.
Proof. unfold skip_name. now destruct (_ && _). Qed.

(** C3: the game of Ann, Bob and Cy is over and the player posts a name
    twice.  The first post sets [name_submitted]; the second post is
    answered like the first and adds a second row for the same game. *)
Theorem C3_second_name_is_inserted_again :
  let once := step (Own (EnterName POST (Some "Zoe") 10)) Demo.game_over in
  let twice := step (Own (EnterName POST (Some "Zoe") 11)) once in
  leaderboard (fst Demo.game_over) = []
  /\ name_submitted (snd once) = true
  /\ leaderboard (fst once) = [mkEntry 1 "Zoe" 2 3 66 10]
  /\ response_of (Own (EnterName POST (Some "Zoe") 11)) once
     = Some (Redirect "finished")
  /\ leaderboard (fst twice)
     = [mkEntry 1 "Zoe" 2 3 66 10; mkEntry 2 "Zoe" 2 3 66 11].
Proof. vm_compute. repeat split; reflexivity. Qed.

(** *** The stored percent *)

Lemma percent_of_zero_total r : percent_of r 0 = 0.
Proof. reflexivity. Qed.

Lemma percent_of_two_thirds : percent_of 2 3 = 66.
Proof. vm_compute. reflexivity. Qed.

(** Up to a total of 60 the stored percent is the floor of
    [right * 100 / total] except at 29 of 50. *)
Lemma percent_off_below_61 : Demo.percent_off 61 = [(29, 50)].
Proof. vm_compute. reflexivity. Qed.

(** C5: fifty players, a game with 29 right guesses out of 50, and the
    name entered.  The row stores 57 percent: 29 / 50 is the float 0.58,
    0.58 * 100 is the float just below 58, and [int] cuts it to 57; the
    floor of 29 * 100 / 50 is 58. *)
Theorem C5_percent_29_of_50_is_57 :
  leaderboard (fst (run Demo.game_29_of_50 Demo.init))
  = [mkEntry 1 "Ann" 29 50 57 0]
  /\ percent_of 29 50 = 57
  /\ 29 * 100 / 50 = 58.
Proof. vm_compute. repeat split; reflexivity. Qed.

(** *** Shared tracks *)

(** The example of two owners: abc is listed by Ann and by Bob, every
    other track by one person. *)
Lemma shared_tracks_two_owners :
  shared_tracks (fst Demo.three_players) = [("abc", ["Ann"; "Bob"])].
Proof. vm_compute. reflexivity. Qed.

(** The analysis reads [people] and [tracks] and nothing else. *)
Lemma shared_tracks_store db db' :
  people db' = people db -> tracks db' = tracks db ->
  shared_tracks db' = shared_tracks db.
Proof. unfold shared_tracks, track_owner_rows. now intros -> ->. Qed.

(** C7: Ann alone is in the database and has listed the track abc twice.
    The group of abc has two rows of the one owner Ann and is kept. *)
Theorem C7_one_owner_twice_is_shared :
  people (fst Demo.same_track_twice) = [mkPerson 1 "Ann"]
  /\ map track_id (tracks (fst Demo.same_track_twice)) = ["abc"; "abc"; "xyz"]
  /\ shared_tracks (fst Demo.same_track_twice) = [("abc", ["Ann"; "Ann"])].
Proof. vm_compute. repeat split; reflexivity. Qed.

(** *** [/reset] *)

(** What [/reset] does: eight keys are popped; [current_person_id],
    [total_people] and the foreign keys stay; the database stays. *)
Lemma reset_effect db s :
  reset db s
  = (Redirect "quiz", db,
     mkSession None false (current_person_id s) None None (total_people s)
               None None None false (others s)).
Proof. reflexivity. Qed.

(** C4: a round was shown to the session (three people in the database),
    then [/reset] is posted.  [total_people] still holds 3 and
    [current_person_id] still holds 1.  When a fourth player joins
    afterwards, the next round request reports progress against 3. *)
Theorem C4_reset_keeps_total_people :
  let cleared := step (Own Reset) Demo.in_round in
  let later := step (Demo.join "Dee" "d1" "d2" "d3") cleared in
  total_people (snd Demo.in_round) = Some 3
  /\ total_people (snd cleared) = Some 3
  /\ current_person_id (snd cleared) = Some 1
  /\ fst cleared = fst Demo.in_round
  /\ List.length (people (fst later)) = 4%nat
  /\ response_of (Own (Quiz Demo.first)) later
     = Some (RenderQuiz ["abc"; "xyz"; "a3"] ["Bob"; "Cy"; "Ann"]
               (mkProgress (mkScore 0 0) 3 0)).
Proof. vm_compute. repeat split; reflexivity. Qed.

End Summary.

(** ** Adding songs *)

Module Songs.
Import Db Sess App Spec Store DbFacts RouteFacts Invariant.

Lemma filter_none_of {A} (f g : A -> bool) (l : list A) :
  (forall x, g x = true -> f x = false) -> filter f (filter g l) = [].
Proof.
  intros H. induction l as [|a l IH]; simpl; [reflexivity|].
  destruct (g a) eqn:G; simpl; [rewrite (H a G)|]; exact IH.
Qed.

Lemma filter_all_of {A} (f g : A -> bool) (l : list A) :
  (forall x, f x = true -> g x = true) -> filter f (filter g l) = filter f l.
Proof.
  intros H. induction l as [|a l IH]; simpl; [reflexivity|].
  destruct (g a) eqn:G; simpl.
  - destruct (f a); [f_equal|]; exact IH.
  - destruct (f a) eqn:F; [rewrite (H a F) in G; discriminate | exact IH].
Qed.

Lemma rows_replace_self pid a b c db :
  rows_of (replace_tracks pid a b c db) pid
  = [mkTrack (tracks_seq db + 1) pid a 1;
     mkTrack (tracks_seq db + 1 + 1) pid b 2;
     mkTrack (tracks_seq db + 1 + 1 + 1) pid c 3].
Proof.
  unfold rows_of, replace_tracks. simpl.
  rewrite !filter_app. simpl. rewrite Z.eqb_refl. simpl.
  rewrite filter_none_of; [reflexivity|].
  intros t H. apply negb_true_iff in H. exact H.
Qed.

Lemma rows_replace_other pid a b c db x :
  x <> pid -> rows_of (replace_tracks pid a b c db) x = rows_of db x.
Proof.
  intros N. unfold rows_of, replace_tracks. simpl.
  rewrite !filter_app. simpl.
  destruct (Z.eqb_spec pid x) as [E|_]; [congruence|]. simpl.
  rewrite !app_nil_r. apply filter_all_of.
  intros t H. apply Z.eqb_eq in H. apply negb_true_iff.
  apply Z.eqb_neq. congruence.
Qed.

Lemma track_ids_rows db x :
  track_ids_of db x
  = map track_id (Py.sort_by (fun a b => pos a <=? pos b) (rows_of db x)).
Proof. reflexivity. Qed.

Lemma person_by_name_Some db n p :
  person_by_name db n = Some p -> In p (people db) /\ p_name p = n.
Proof.
  unfold person_by_name. intros H. apply find_some in H as [Hin E].
  apply String.eqb_eq in E. auto.
Qed.

Lemma person_by_name_None db n :
  person_by_name db n = None -> ~ In n (map p_name (people db)).
Proof.
  unfold person_by_name. intros H Hin. apply in_map_iff in Hin as (p & E & Hp).
  apply (find_none _ _ H) in Hp. rewrite E, String.eqb_refl in Hp. discriminate.
Qed.

(** The two outcomes of [INSERT OR IGNORE] followed by the lookup of the id. *)
Lemma upsert_person n db :
  (exists p, person_by_name db n = Some p
             /\ insert_or_ignore_person n db
                = with_people (people db) (people_seq db + 1) db)
  \/ (person_by_name db n = None
      /\ people (insert_or_ignore_person n db)
         = (people db ++ [mkPerson (people_seq db + 1) n])%list
      /\ person_by_name (insert_or_ignore_person n db) n
         = Some (mkPerson (people_seq db + 1) n)).
Proof.
  unfold insert_or_ignore_person.
  destruct (person_by_name db n) as [p|] eqn:E; [left; eauto|].
  right. split; [reflexivity|]. split; [reflexivity|].
  unfold person_by_name in *. cbn [people with_people].
  rewrite PyFacts.find_app, E. simpl.
  now rewrite String.eqb_refl.
Qed.

(** A complete form is accepted: the person is looked up or added, and
    the three tracks replace whatever the person had. *)
Lemma input_songs_accepted name t1 t2 t3 db s :
  Py.nonempty (Py.strip name) = true ->
  Py.nonempty (Py.strip t1) = true ->
  Py.nonempty (Py.strip t2) = true ->
  Py.nonempty (Py.strip t3) = true ->
  exists p,
    person_by_name (insert_or_ignore_person (Py.strip name) db) (Py.strip name)
    = Some p
    /\ input_songs_post (Some name) (Some t1) (Some t2) (Some t3) db s
       = (Redirect "quiz",
          replace_tracks (p_id p) (extract_track_id (Py.strip t1))
            (extract_track_id (Py.strip t2)) (extract_track_id (Py.strip t3))
            (insert_or_ignore_person (Py.strip name) db),
          s).
Proof.
  intros Hn H1 H2 H3. destruct (insert_person_found (Py.strip name) db) as [p Hp].
  exists p. split; [exact Hp|].
  unfold input_songs_post. rewrite Hn, H1, H2, H3, Hp. reflexivity.
Qed.

Lemma input_songs_cases name t1 t2 t3 db s :
  input_songs_post name t1 t2 t3 db s = (BadRequest, db, s)
  \/ exists n a b c p,
       Py.nonempty n = true
       /\ person_by_name (insert_or_ignore_person n db) n = Some p
       /\ input_songs_post name t1 t2 t3 db s
          = (Redirect "quiz", replace_tracks (p_id p) a b c (insert_or_ignore_person n db), s).
Proof.
  destruct name as [name|], t1 as [t1|], t2 as [t2|], t3 as [t3|];
    try (left; reflexivity).
  destruct (Py.nonempty (Py.strip name)) eqn:Hn;
    [|left; unfold input_songs_post; now rewrite Hn].
  destruct (Py.nonempty (Py.strip t1)) eqn:H1;
    [|left; unfold input_songs_post; now rewrite Hn, H1].
  destruct (Py.nonempty (Py.strip t2)) eqn:H2;
    [|left; unfold input_songs_post; now rewrite Hn, H1, H2].
  destruct (Py.nonempty (Py.strip t3)) eqn:H3;
    [|left; unfold input_songs_post; now rewrite Hn, H1, H2, H3].
  right. destruct (input_songs_accepted name t1 t2 t3 db s Hn H1 H2 H3) as (p & Hp & E).
  eauto 10.
Qed.

End Songs.

(** ** The tables stay well formed *)

Module StoreFacts.
Import Db Sess App Spec Store DbFacts RouteFacts Invariant Songs.

Lemma stat_ok_ids db db' st :
  (forall x, In x (ids db) -> In x (ids db')) -> stat_ok db st -> stat_ok db' st.
Proof. intros H [K B P]. split; auto. Qed.

(** Replacing the tracks of a known person [pid] repairs the one thing
    that may be missing: the three rows of [pid]. *)
Lemma store_replace pid a b c db :
  In pid (ids db) ->
  NoDup (map p_name (people db)) ->
  Forall (fun p => Py.nonempty (p_name p) = true) (people db) ->
  Forall (fun p => p_id p <> pid -> map pos (rows_of db (p_id p)) = [1; 2; 3])
         (people db) ->
  Forall (fun t => In (person_id t) (ids db)) (tracks db) ->
  NoDup (map s_person_id (person_stats db)) ->
  Forall (stat_ok db) (person_stats db) ->
  store_ok (replace_tracks pid a b c db).
Proof.
  intros Hpid Hn He H3 Ht Hs Hso. split; try assumption.
  - change (people (replace_tracks pid a b c db)) with (people db).
    eapply Forall_impl; [|exact H3]. intros q Hq. simpl in Hq.
    destruct (Z.eq_dec (p_id q) pid) as [E|N].
    + rewrite E, rows_replace_self. reflexivity.
    + rewrite rows_replace_other; auto.
  - unfold replace_tracks. simpl. rewrite <- !app_assoc. simpl.
    apply Forall_app. split.
    + apply Forall_forall. intros t Hin. apply filter_In in Hin as [Hin _].
      rewrite Forall_forall in Ht. exact (Ht t Hin).
    + repeat constructor; exact Hpid.
  - change (person_stats (replace_tracks pid a b c db)) with (person_stats db).
    eapply Forall_impl; [|exact Hso]. intros st. now apply stat_ok_ids.
Qed.

Lemma store_post n a b c p db :
  Py.nonempty n = true -> db_ok db -> store_ok db ->
  person_by_name (insert_or_ignore_person n db) n = Some p ->
  store_ok (replace_tracks (p_id p) a b c (insert_or_ignore_person n db)).
Proof.
  intros Hne [Hnd Hb] [S1 S2 S3 S4 S5 S6] Hp.
  destruct (upsert_person n db) as [(q & Hq & E)|(Hnone & Epeople & Enew)].
  - rewrite E in *. apply person_by_name_Some in Hp as [Hin _].
    apply store_replace; auto.
    + unfold ids. now apply in_map.
    + eapply Forall_impl; [|exact S3]. auto.
    + eapply Forall_impl; [|exact S6]. intros st [K B P]. now split.
  - rewrite Enew in Hp. injection Hp as <-. simpl.
    set (db1 := insert_or_ignore_person n db) in *.
    assert (Et : tracks db1 = tracks db) by apply insert_person_tracks.
    assert (Es : person_stats db1 = person_stats db).
    { unfold db1, insert_or_ignore_person. now rewrite Hnone. }
    assert (Hids : forall x, In x (ids db) -> In x (ids db1)).
    { intros x Hx. unfold ids in *. rewrite Epeople, map_app, in_app_iff. auto. }
    apply store_replace.
    + unfold ids. rewrite Epeople, map_app, in_app_iff. simpl. auto.
    + rewrite Epeople, map_app. simpl. apply NoDup_app; [assumption | repeat constructor; simpl; tauto |].
      intros x Hx [E|[]]. subst x. now apply (person_by_name_None db n).
    + rewrite Epeople. apply Forall_app. split; [assumption | repeat constructor; assumption].
    + rewrite Epeople. apply Forall_app. split; [|repeat constructor; simpl; congruence].
      eapply Forall_impl; [|exact S3]. intros q Hq _. simpl in Hq.
      unfold rows_of in *. now rewrite Et.
    + rewrite Et. eapply Forall_impl; [|exact S4]. intros t. apply Hids.
    + now rewrite Es.
    + rewrite Es. eapply Forall_impl; [|exact S6]. intros st. now apply stat_ok_ids.
Qed.

Lemma store_same_people db db' :
  people db' = people db -> tracks db' = tracks db ->
  person_stats db' = person_stats db -> store_ok db -> store_ok db'.
Proof.
  intros Ep Et Es [S1 S2 S3 S4 S5 S6].
  split; unfold rows_of, ids in *; rewrite ?Ep, ?Et, ?Es; try assumption.
  eapply Forall_impl; [|exact S6]. intros st [K B P]. split; auto.
  unfold ids. now rewrite Ep.
Qed.

Lemma stat_of_None db c :
  stat_of db c = None -> ~ In c (map s_person_id (person_stats db)).
Proof.
  unfold stat_of. intros H Hin. apply in_map_iff in Hin as (st & E & Hst).
  apply (find_none _ _ H) in Hst. rewrite E, Z.eqb_refl in Hst. discriminate.
Qed.

Lemma store_record_guess c b db db1 :
  record_guess c b db = Some db1 -> store_ok db -> store_ok db1.
Proof.
  intros R [S1 S2 S3 S4 S5 S6]. unfold record_guess in R.
  destruct (stat_of db c) as [st0|] eqn:E.
  - injection R as <-. split; try assumption; simpl.
    + rewrite map_map.
      erewrite map_ext; [exact S5|]. intros st. simpl.
      destruct (Z.eqb_spec (s_person_id st) c); simpl; congruence.
    + apply Forall_map. eapply Forall_impl; [|exact S6].
      intros st [K B P]. destruct (Z.eqb_spec (s_person_id st) c) as [Ec|_].
      * split; simpl; [now rewrite <- Ec | destruct b; lia | lia].
      * now split.
  - unfold insert_stat in R. destruct (person_by_id db c) as [p|] eqn:Hp; [|discriminate].
    injection R as <-.
    pose proof (insert_row_perm (mkStat c (if b then 1 else 0) 1) (person_stats db))
      as Hperm.
    split; try assumption; simpl.
    + eapply Permutation_NoDup;
        [symmetry; apply Permutation_map; exact Hperm|].
      simpl. constructor; [|assumption]. now apply (stat_of_None db c).
    + eapply Permutation_Forall; [symmetry; exact Hperm|].
      constructor.
      { split; simpl.
        * eapply person_by_id_ids, Hp.
        * destruct b; lia.
        * lia. }
      eapply Forall_impl; [|exact S6]. intros st0. now apply stat_ok_ids.
Qed.

Lemma guess_db_cases choice db s :
  snd (fst (guess choice db s)) = db
  \/ exists c b, record_guess c b db = Some (snd (fst (guess choice db s))).
Proof.
  unfold guess. destruct (correct_person_id s) as [c|]; [|now left].
  destruct (record_guess c _ db) as [db1|] eqn:R; [|now left].
  right. exists c. eexists.
  destruct (drop_current _); simpl; exact R.
Qed.

Lemma handle_store req db s :
  db_ok db -> store_ok db -> store_ok (snd (fst (handle req db s))).
Proof.
  intros Hdb Hst. destruct req; simpl; try assumption.
  - destruct (input_songs_cases name t1 t2 t3 db s)
      as [E|(n & a & b & c & p & Hn & Hp & E)]; rewrite E; simpl; [assumption|].
    now apply store_post.
  - now rewrite quiz_db.
  - destruct (guess_db_cases choice db s) as [E|(c & b & R)]; [now rewrite E|].
    eapply store_record_guess; eauto.
  - unfold enter_name. destruct (negb (all_shown s)); [assumption|].
    destruct m; [assumption|].
    destruct (negb (Py.nonempty _)); simpl; [assumption|].
    now apply (store_same_people db).
  - unfold skip_name. now destruct (_ && _).
Qed.

End StoreFacts.

(** ** More on sorting and drawing *)

Module DrawFacts.
Import Py.

Lemma insert_by_perm {A} (le : A -> A -> bool) x l :
  Permutation (insert_by le x l) (x :: l).
Proof.
  induction l as [|y l IH]; simpl; [reflexivity|].
  destruct (le x y); [reflexivity|].
  rewrite IH. apply perm_swap.
Qed.

Lemma sort_by_perm {A} (le : A -> A -> bool) l : Permutation (sort_by le l) l.
Proof.
  induction l as [|x l IH]; simpl; [reflexivity|].
  rewrite insert_by_perm. now constructor.
Qed.

Lemma sort_by_length {A} (le : A -> A -> bool) l :
  List.length (sort_by le l) = List.length l.
Proof. apply Permutation_length, sort_by_perm. Qed.

Section Ordered.
Context {A : Type} (le : A -> A -> bool).
Hypothesis le_total : forall a b, le a b = true \/ le b a = true.
Hypothesis le_trans : forall a b c, le a b = true -> le b c = true -> le a c = true.

Let R (a b : A) : Prop := le a b = true.

Lemma insert_by_sorted x l :
  StronglySorted R l -> StronglySorted R (insert_by le x l).
Proof.
  induction 1 as [|y l Hl IH Hy]; simpl.
  - repeat constructor.
  - destruct (le x y) eqn:L.
    + constructor; [now constructor|]. constructor; [exact L|].
      eapply Forall_impl; [|exact Hy]. intros z Hz. exact (le_trans _ _ _ L Hz).
    + constructor; [exact IH|].
      eapply Permutation_Forall; [symmetry; apply insert_by_perm|].
      constructor; [|exact Hy].
      destruct (le_total x y) as [C|C]; [congruence | exact C].
  Qed.

Lemma sort_by_sorted l : StronglySorted R (sort_by le l).
Proof.
  induction l as [|x l IH]; simpl; [constructor | now apply insert_by_sorted].
Qed.
End Ordered.

(** *** [random.shuffle] permutes *)

Lemma set_nth_perm {A} j (x b : A) l :
  nth_error l j = Some b -> Permutation (b :: set_nth j x l) (x :: l).
Proof.
  revert j. induction l as [|a l IH]; intros [|j]; simpl; try discriminate.
  - intros [= ->]. apply perm_swap.
  - intros H. rewrite perm_swap. rewrite (IH j H). apply perm_swap.
Qed.

Lemma set_nth_same {A} j (b : A) l : nth_error l j = Some b -> set_nth j b l = l.
Proof.
  revert j. induction l as [|a l IH]; intros [|j]; simpl; try discriminate.
  - now intros [= ->].
  - intros H. now rewrite IH.
Qed.

Lemma swap_perm {A} i j (l : list A) : Permutation (swap i j l) l.
Proof.
  unfold swap.
  destruct (nth_error l i) as [a|] eqn:Ei; [|reflexivity].
  destruct (nth_error l j) as [b|] eqn:Ej; [|reflexivity].
  revert i j Ei Ej. induction l as [|x l IH]; intros [|i] [|j]; simpl;
    try discriminate.
  - intros [= ->] [= ->]. reflexivity.
  - intros [= ->] Ej. now apply set_nth_perm.
  - intros Ei [= ->]. now apply set_nth_perm.
  - intros Ei Ej. constructor. now apply IH.
Qed.

Lemma shuffle_perm {A} draws (l : list A) : Permutation (shuffle draws l) l.
Proof.
  unfold shuffle. generalize (List.length l - 1)%nat as i. intros i.
  revert draws l. induction i as [|i IH]; intros draws l; simpl; [reflexivity|].
  rewrite IH. apply swap_perm.
Qed.

(** *** [random.sample] takes two different positions *)

Lemma remove_nth_In {A} i (y : A) l : In y (remove_nth i l) -> In y l.
Proof.
  revert i. induction l as [|a l IH]; intros [|i]; simpl; try tauto.
  intros [E|H]; [auto | right; eapply IH, H].
Qed.

Lemma remove_nth_NoDup {A} i (x : A) l :
  NoDup l -> nth_error l i = Some x -> ~ In x (remove_nth i l).
Proof.
  intros N. revert i. induction N as [|a l Ha N IH]; intros [|i]; simpl;
    try discriminate.
  - now intros [= <-].
  - intros H [E|Hin].
    + subst a. apply Ha. eapply nth_error_In, H.
    + exact (IH i H Hin).
Qed.

Lemma sample2_distinct {A} k (l : list A) x y :
  NoDup l -> sample2 k l = Some [x; y] -> In x l /\ In y l /\ x <> y.
Proof.
  intros N. unfold sample2. destruct (_ <? 2)%nat; [discriminate|].
  set (i := (fst k mod List.length l)%nat).
  destruct (nth_error l i) as [a|] eqn:Ea; [|discriminate].
  destruct (nth_error (remove_nth i l) _) as [b|] eqn:Eb; [|discriminate].
  intros [= <- <-]. apply nth_error_In in Eb.
  split; [eapply nth_error_In, Ea|]. split; [eapply remove_nth_In, Eb|].
  intros E. subst b. exact (remove_nth_NoDup i a l N Ea Eb).
Qed.

Lemma NoDup_map_inj {A B} (f : A -> B) (l : list A) a b :
  NoDup (map f l) -> In a l -> In b l -> f a = f b -> a = b.
Proof.
  induction l as [|x l IH]; simpl; [tauto|].
  intros N. inversion N as [|? ? Hx Hl]; subst.
  intros [<-|Ha] [<-|Hb] E; auto.
  - exfalso. apply Hx. rewrite E. now apply in_map.
  - exfalso. apply Hx. rewrite <- E. now apply in_map.
Qed.

End DrawFacts.

(** ** Players and their tracks *)

Module Players.
Import Db Sess App Spec Store DbFacts RouteFacts Invariant Songs StoreFacts.

Lemma step_db ev st :
  exists req s, fst (step ev st) = snd (fst (handle req (fst st) s)).
Proof.
  destruct ev as [req|s' req]; simpl.
  - exists req, (snd st). now destruct (handle req (fst st) (snd st)) as [[? ?] ?].
  - exists req, s'. now destruct (handle req (fst st) s') as [[? ?] ?].
Qed.

Lemma reachable_store st : reachable st -> store_ok (fst st).
Proof.
  induction 1 as [|st ev Hre IH].
  - split; simpl; constructor.
  - destruct (step_db ev st) as (req & s & ->).
    apply handle_store; [apply (inv_db _ (reachable_inv _ Hre)) | exact IH].
Qed.

Lemma three_rows db p :
  store_ok db -> In p (people db) ->
  List.length (rows_of db (p_id p)) = 3%nat.
Proof.
  intros S Hp. pose proof (three_tracks _ S) as H. rewrite Forall_forall in H.
  specialize (H p Hp). apply (f_equal (@List.length Z)) in H.
  now rewrite length_map in H.
Qed.

Lemma eligible_all db : store_ok db -> eligible db = people db.
Proof.
  intros S. unfold eligible. apply forallb_filter_id, forallb_forall.
  intros p Hp. apply Nat.leb_le.
  change (count_tracks db (p_id p)) with (List.length (rows_of db (p_id p))).
  rewrite (three_rows db p S Hp). lia.
Qed.

(** Every player ever added has a name that is not empty and that nobody
    else has, and exactly three track rows, at the positions 1, 2 and 3:
    the filter of [/quiz] on "at least three tracks" excludes nobody. *)
Theorem players_have_three_tracks (st : State) :
  reachable st ->
  NoDup (map p_name (people (fst st)))
  /\ NoDup (map p_id (people (fst st)))
  /\ eligible (fst st) = people (fst st)
  /\ (forall p, In p (people (fst st)) ->
        Py.nonempty (p_name p) = true
        /\ map pos (rows_of (fst st) (p_id p)) = [1; 2; 3]
        /\ List.length (track_ids_of (fst st) (p_id p)) = 3%nat)
  /\ (forall t, In t (tracks (fst st)) ->
        exists p, person_by_id (fst st) (person_id t) = Some p).
Proof.
  intros Hre. pose proof (reachable_store _ Hre) as S.
  pose proof (inv_db _ (reachable_inv _ Hre)) as Hdb.
  split; [apply (names_NoDup _ S)|]. split; [apply (ids_NoDup _ Hdb)|].
  split; [now apply eligible_all|]. split.
  - intros p Hp. split; [|split].
    + pose proof (names_nonempty _ S) as H. rewrite Forall_forall in H. auto.
    + pose proof (three_tracks _ S) as H. rewrite Forall_forall in H. auto.
    + rewrite track_ids_rows, length_map, DrawFacts.sort_by_length.
      now apply three_rows.
  - intros t Ht. apply person_by_id_known.
    pose proof (tracks_owned _ S) as H. rewrite Forall_forall in H. auto.
Qed.

Lemma players_have_three_tracks_witness :
  reachable Demo.three_players
  /\ eligible (fst Demo.three_players) = people (fst Demo.three_players).
Proof.
  assert (H : reachable Demo.three_players)
    by exact (reachable_run _ _ reach_init).
  split; [exact H|].
  exact (proj1 (proj2 (proj2 (players_have_three_tracks Demo.three_players H)))).
Defined.

(** The statistics table holds at most one row per person, each row is
    about a known person, and [0 <= correct_guesses <= total_guesses] with
    [total_guesses >= 1] in every row. *)
Theorem statistics_rows_are_sound (st : State) :
  reachable st ->
  NoDup (map s_person_id (person_stats (fst st)))
  /\ forall row, In row (person_stats (fst st)) ->
       (exists p, person_by_id (fst st) (s_person_id row) = Some p)
       /\ 0 <= correct_guesses row <= total_guesses row
       /\ 1 <= total_guesses row.
Proof.
  intros Hre. pose proof (reachable_store _ Hre) as S.
  split; [apply (stats_NoDup _ S)|]. intros row Hrow.
  pose proof (stats_ok _ S) as H. rewrite Forall_forall in H.
  destruct (H row Hrow) as [K B P].
  split; [now apply person_by_id_known | auto].
Qed.

Lemma statistics_rows_are_sound_witness :
  reachable Demo.close_rates
  /\ NoDup (map s_person_id (person_stats (fst Demo.close_rates))).
Proof.
  assert (H : reachable Demo.close_rates)
    by exact (reachable_run _ _ (reachable_run _ _ reach_init)).
  split; [exact H|].
  exact (proj1 (statistics_rows_are_sound Demo.close_rates H)).
Defined.

(** A complete form posted to [/input-songs] is answered by the redirect
    to the quiz and leaves the session alone.  Afterwards the person of
    that (stripped) name has exactly the three posted tracks, in the posted
    order, whatever tracks the person had before; the tracks of everybody
    else are as before; the person is the one who had the name, or a new
    row with the next id when nobody had it. *)
Theorem posted_songs_replace_the_tracks
    (name t1 t2 t3 : string) (db : DB) (s : Session) :
  Py.nonempty (Py.strip name) = true ->
  Py.nonempty (Py.strip t1) = true ->
  Py.nonempty (Py.strip t2) = true ->
  Py.nonempty (Py.strip t3) = true ->
  let res := input_songs_post (Some name) (Some t1) (Some t2) (Some t3) db s in
  let db' := snd (fst res) in
  fst (fst res) = Redirect "quiz" /\ snd res = s
  /\ leaderboard db' = leaderboard db /\ person_stats db' = person_stats db
  /\ exists p,
       person_by_name db' (Py.strip name) = Some p
       /\ track_ids_of db' (p_id p)
          = [extract_track_id (Py.strip t1); extract_track_id (Py.strip t2);
             extract_track_id (Py.strip t3)]
       /\ (forall x, x <> p_id p -> track_ids_of db' x = track_ids_of db x)
       /\ ((person_by_name db (Py.strip name) = Some p /\ people db' = people db)
           \/ (person_by_name db (Py.strip name) = None
               /\ p = mkPerson (people_seq db + 1) (Py.strip name)
               /\ people db' = (people db ++ [p])%list)).
Proof.
  intros Hn H1 H2 H3 res db'.
  destruct (input_songs_accepted name t1 t2 t3 db s Hn H1 H2 H3) as (p & Hp & E).
  subst db' res. rewrite E. simpl.
  split; [reflexivity|]. split; [reflexivity|].
  set (n := Py.strip name) in *.
  destruct (upsert_person n db) as [(q & Hq & Ei)|(Hnone & Epeople & Enew)].
  - rewrite Ei in *. split; [reflexivity|]. split; [reflexivity|].
    exists p. split; [exact Hp|]. split; [|split].
    + rewrite track_ids_rows, rows_replace_self. reflexivity.
    + intros x Hx. rewrite !track_ids_rows, rows_replace_other; auto.
    + left. split; [exact Hp | reflexivity].
  - split; [unfold insert_or_ignore_person; now rewrite Hnone|].
    split; [unfold insert_or_ignore_person; now rewrite Hnone|].
    exists p. split; [exact Hp|]. split; [|split].
    + rewrite track_ids_rows, rows_replace_self. reflexivity.
    + intros x Hx. rewrite !track_ids_rows, rows_replace_other; auto.
      unfold rows_of. now rewrite insert_person_tracks.
    + right. rewrite Enew in Hp. injection Hp as <-.
      split; [exact Hnone|]. split; [reflexivity | exact Epeople].
Qed.

Lemma posted_songs_replace_the_tracks_witness :
  Py.nonempty (Py.strip " Bob ") = true
  /\ Py.nonempty (Py.strip "https://open.spotify.com/track/n1?si=9") = true
  /\ Py.nonempty (Py.strip "n2") = true
  /\ Py.nonempty (Py.strip " n3") = true
  /\ track_ids_of
       (snd (fst (input_songs_post (Some " Bob ")
                    (Some "https://open.spotify.com/track/n1?si=9")
                    (Some "n2") (Some " n3")
                    (fst Demo.three_players) Sess.empty))) 2
     = ["n1"; "n2"; "n3"].
Proof.
  assert (Hn : Py.nonempty (Py.strip " Bob ") = true) by reflexivity.
  assert (H1 : Py.nonempty (Py.strip "https://open.spotify.com/track/n1?si=9") = true)
    by reflexivity.
  assert (H2 : Py.nonempty (Py.strip "n2") = true) by reflexivity.
  assert (H3 : Py.nonempty (Py.strip " n3") = true) by reflexivity.
  split; [exact Hn|]. split; [exact H1|]. split; [exact H2|]. split; [exact H3|].
  destruct (posted_songs_replace_the_tracks " Bob "
              "https://open.spotify.com/track/n1?si=9" "n2" " n3"
              (fst Demo.three_players) Sess.empty Hn H1 H2 H3)
    as (_ & _ & _ & _ & p & Hp & Ht & _).
  vm_compute in Hp. injection Hp as <-. exact Ht.
Defined.

(** A form with a missing field, or with a name or a track that is empty
    once stripped, is refused with status 400; nothing is written. *)
Theorem incomplete_songs_are_refused
    (name t1 t2 t3 : option string) (db : DB) (s : Session) :
  blank name \/ blank t1 \/ blank t2 \/ blank t3 ->
  input_songs_post name t1 t2 t3 db s = (BadRequest, db, s).
Proof.
  intros H. unfold input_songs_post.
  destruct name as [name|], t1 as [t1|], t2 as [t2|], t3 as [t3|]; try reflexivity.
  simpl in H.
  destruct (Py.nonempty (Py.strip name)); [|reflexivity].
  destruct (Py.nonempty (Py.strip t1)); [|reflexivity].
  destruct (Py.nonempty (Py.strip t2)); [|reflexivity].
  destruct (Py.nonempty (Py.strip t3)); [|reflexivity].
  destruct H as [H|[H|[H|H]]]; discriminate.
Qed.

Lemma incomplete_songs_are_refused_witness :
  (blank (Some "Ann") \/ blank (Some "a") \/ blank (Some "   ") \/ blank (Some "c"))
  /\ input_songs_post (Some "Ann") (Some "a") (Some "   ") (Some "c")
       (fst Demo.three_players) Sess.empty
     = (BadRequest, fst Demo.three_players, Sess.empty).
Proof.
  assert (H : blank (Some "Ann") \/ blank (Some "a") \/ blank (Some "   ")
              \/ blank (Some "c")) by (right; right; left; reflexivity).
  split; [exact H|].
  exact (incomplete_songs_are_refused _ _ _ _ _ _ H).
Defined.

Lemma run_people evs st :
  reachable st ->
  exists extra, people (fst (run evs st)) = (people (fst st) ++ extra)%list.
Proof.
  revert st. induction evs as [|ev evs IH]; intros st Hre; simpl.
  - exists []. now rewrite app_nil_r.
  - destruct (IH (step ev st) (reach_step _ _ Hre)) as [e2 E2].
    destruct (step_db ev st) as (req & s & E).
    destruct (handle_db req (fst st) s (inv_db _ (reachable_inv _ Hre)))
      as [_ [[e1 E1] _]].
    rewrite <- E in E1. exists (e1 ++ e2)%list.
    now rewrite E2, E1, app_assoc.
Qed.

(** No request deletes or renames a player: whoever is in [people] stays
    there with the same id and name through any later requests, at the
    same place in the table, and stays eligible for the quiz. *)
Theorem players_are_never_removed (st : State) (evs : list Event) :
  reachable st ->
  (exists extra,
     people (fst (run evs st)) = (people (fst st) ++ extra)%list)
  /\ (forall x p, person_by_id (fst st) x = Some p ->
                  person_by_id (fst (run evs st)) x = Some p)
  /\ (forall p, In p (eligible (fst st)) -> In p (eligible (fst (run evs st)))).
Proof.
  intros Hre. destruct (run_people evs st Hre) as [extra E].
  split; [eauto|]. split.
  - intros x p H. unfold person_by_id in *. now rewrite E, PyFacts.find_app, H.
  - intros p Hp.
    rewrite (eligible_all _ (reachable_store _ Hre)) in Hp.
    rewrite (eligible_all _ (reachable_store _ (reachable_run evs _ Hre))).
    rewrite E, in_app_iff. auto.
Qed.

Lemma players_are_never_removed_witness :
  reachable Demo.three_players
  /\ person_by_id (fst (run Demo.redraw Demo.three_players)) 2
     = Some (mkPerson 2 "Bob").
Proof.
  assert (H : reachable Demo.three_players)
    by exact (reachable_run _ _ reach_init).
  split; [exact H|].
  apply (proj1 (proj2 (players_are_never_removed Demo.three_players Demo.redraw H))).
  reflexivity.
Defined.

End Players.

(** ** The leaderboard table *)

Module Board.
Import Db Sess App Spec Store DbFacts RouteFacts Invariant Songs StoreFacts Players.

Lemma replace_tracks_board pid a b c db :
  leaderboard (replace_tracks pid a b c db) = leaderboard db
  /\ leaderboard_seq (replace_tracks pid a b c db) = leaderboard_seq db.
Proof. split; reflexivity. Qed.

Lemma insert_person_board n db :
  leaderboard (insert_or_ignore_person n db) = leaderboard db
  /\ leaderboard_seq (insert_or_ignore_person n db) = leaderboard_seq db.
Proof. unfold insert_or_ignore_person. now destruct (person_by_name db n). Qed.

Lemma record_guess_board c b db db1 :
  record_guess c b db = Some db1 ->
  leaderboard db1 = leaderboard db /\ leaderboard_seq db1 = leaderboard_seq db.
Proof.
  unfold record_guess, insert_stat.
  destruct (stat_of db c); [|destruct (person_by_id db c)];
    intros [= <-]; auto.
Qed.

(** What one request does to the leaderboard and its counter. *)
Lemma handle_board req db s :
  let db' := snd (fst (handle req db s)) in
  (leaderboard db' = leaderboard db /\ leaderboard_seq db' = leaderboard_seq db)
  \/ exists name now,
       req = EnterName POST (Some name) now
       /\ all_shown s = true
       /\ Py.nonempty (Py.strip name) = true
       /\ leaderboard_seq db' = leaderboard_seq db + 1
       /\ leaderboard db'
          = (leaderboard db
             ++ [mkEntry (leaderboard_seq db + 1) (Py.strip name)
                   (right (get_score s)) (total (get_score s))
                   (percent_of (right (get_score s)) (total (get_score s)))
                   now])%list.
Proof.
  destruct req; simpl; auto.
  - destruct (input_songs_cases name t1 t2 t3 db s)
      as [E|(n & a & b & c & p & Hn & Hp & E)]; rewrite E; simpl; [auto|].
    left. destruct (insert_person_board n db) as [E1 E2].
    split; [exact E1 | exact E2].
  - rewrite quiz_db. auto.
  - destruct (guess_db_cases choice db s) as [E|(c & b & R)]; [rewrite E; auto|].
    left. now apply record_guess_board in R.
  - unfold enter_name. destruct (all_shown s) eqn:A; simpl; [|auto].
    destruct m; [auto|]. destruct name as [name|].
    + destruct (Py.nonempty (Py.strip name)) eqn:N; simpl; [|auto].
      right. exists name, now. auto.
    + simpl. auto.
  - unfold skip_name. destruct (_ && _); auto.
Qed.

(** Leaderboard rows are never changed or deleted.  A request adds a row
    only when it is a POST to [/enter-name] with a name that is not blank,
    from a session whose game is over; the row then holds the stripped
    name and the score of that session.  So along any run the old table is
    a prefix of the new one. *)
Theorem leaderboard_is_append_only
    (req : Request) (s : Session) (evs : list Event) (st : State) :
  (let db' := snd (fst (handle req (fst st) s)) in
   leaderboard db' = leaderboard (fst st)
   \/ exists name now,
        req = EnterName POST (Some name) now
        /\ all_shown s = true
        /\ Py.nonempty (Py.strip name) = true
        /\ exists id,
             leaderboard db'
             = (leaderboard (fst st)
                ++ [mkEntry id (Py.strip name) (right (get_score s))
                      (total (get_score s))
                      (percent_of (right (get_score s)) (total (get_score s)))
                      now])%list)
  /\ exists added,
       leaderboard (fst (run evs st)) = (leaderboard (fst st) ++ added)%list.
Proof.
  split.
  - destruct (handle_board req (fst st) s)
      as [[E _]|(name & now & E1 & E2 & E3 & _ & E5)]; [now left|].
    right. exists name, now. eauto 8.
  - revert st. induction evs as [|ev evs IH]; intros st; simpl.
    + exists []. now rewrite app_nil_r.
    + destruct (IH (step ev st)) as [a2 E2].
      destruct (step_db ev st) as (rq & s0 & E).
      assert (exists a1, leaderboard (fst (step ev st))
                         = (leaderboard (fst st) ++ a1)%list) as [a1 E1].
      { rewrite E. destruct (handle_board rq (fst st) s0)
          as [[E1 _]|(name & now & _ & _ & _ & _ & E5)].
        - exists []. now rewrite app_nil_r.
        - eauto. }
      exists (a1 ++ a2)%list. now rewrite E2, E1, app_assoc.
Qed.

(** The count-up list [1; 2; ...; n]. *)
Lemma count_up_S n :
  map Z.of_nat (seq 1 (S n)) = (map Z.of_nat (seq 1 n) ++ [Z.of_nat n + 1])%list.
Proof.
  rewrite seq_S, map_app. simpl. do 2 f_equal. lia.
Qed.

Lemma sorted_snoc l y :
  StronglySorted Z.lt l -> Forall (fun x => x < y) l ->
  StronglySorted Z.lt (l ++ [y]).
Proof.
  induction 1 as [|a l Hl IH Ha]; intros Hy; simpl.
  - repeat constructor.
  - inversion Hy as [|? ? Hay Hly]; subst. constructor; [now apply IH|].
    apply Forall_app. split; [exact Ha | now repeat constructor].
Qed.

(** A new person gets an id above the counter, and the counter is above
    every id in the table; a leaderboard row gets the next id, and no
    insert into the leaderboard is ever ignored. *)
Lemma reachable_ids st :
  reachable st ->
  StronglySorted Z.lt (map p_id (people (fst st)))
  /\ (leaderboard_seq (fst st) = Z.of_nat (List.length (leaderboard (fst st)))
      /\ map e_id (leaderboard (fst st))
         = map Z.of_nat (seq 1 (List.length (leaderboard (fst st))))).
Proof.
  induction 1 as [|st ev Hre [IH1 [IH3 IH4]]];
    [simpl; split; [constructor | auto]|].
  pose proof (inv_db _ (reachable_inv _ Hre)) as [_ Hb].
  destruct (step_db ev st) as (req & s & ->). split.
  - destruct req; simpl; auto;
      try (destruct (guess_db choice (fst st) s) as (Ep & _ & Es);
           rewrite Ep; auto; fail);
      try (destruct (enter_name_db m name now (fst st) s) as (Ep & _ & Es);
           rewrite Ep; auto; fail).
    + destruct (input_songs_cases name t1 t2 t3 (fst st) s)
        as [E|(n & a & b & c & p & Hn & Hp & E)]; rewrite E; simpl; [auto|].
      destruct (upsert_person n (fst st)) as [(q & Hq & Ei)|(Hnone & Ep & _)].
      * rewrite Ei. exact IH1.
      * rewrite Ep, map_app. simpl. apply sorted_snoc; [exact IH1|].
        apply Forall_map. eapply Forall_impl; [|exact Hb].
        simpl. intros; lia.
    + rewrite quiz_db. auto.
    + unfold skip_name. destruct (_ && _); auto.
  - destruct (handle_board req (fst st) s)
      as [[E1 E2]|(name & now & _ & _ & _ & E4 & E5)].
    + rewrite E1, E2. auto.
    + rewrite E5, E4, length_app, map_app. simpl.
      replace (List.length (leaderboard (fst st)) + 1)%nat
        with (S (List.length (leaderboard (fst st)))) by lia.
      rewrite count_up_S, <- IH4, <- IH3. split; [lia | reflexivity].
Qed.

(** Ids follow the order of arrival and are never reused: in table order
    the ids of [people] go strictly up, and the leaderboard rows, which
    are only ever inserted, have the ids 1, 2, ..., n. *)
Theorem ids_follow_arrival (st : State) :
  reachable st ->
  StronglySorted Z.lt (map p_id (people (fst st)))
  /\ map e_id (leaderboard (fst st))
     = map Z.of_nat (seq 1 (List.length (leaderboard (fst st)))).
Proof.
  intros H. destruct (reachable_ids st H) as [E1 [_ E2]].
  split; [exact E1 | exact E2].
Qed.

Lemma ids_follow_arrival_witness :
  reachable (run [Demo.join "Ann" "a1" "a2" "a3"; Demo.join "Ann" "a4" "a5" "a6";
                  Demo.join "Bob" "b1" "b2" "b3"] Demo.init)
  /\ StronglySorted Z.lt
       (map p_id
          (people
             (fst (run [Demo.join "Ann" "a1" "a2" "a3";
                        Demo.join "Ann" "a4" "a5" "a6";
                        Demo.join "Bob" "b1" "b2" "b3"] Demo.init)))).
Proof.
  assert (H : reachable
                (run [Demo.join "Ann" "a1" "a2" "a3"; Demo.join "Ann" "a4" "a5" "a6";
                      Demo.join "Bob" "b1" "b2" "b3"] Demo.init))
    by exact (reachable_run _ _ reach_init).
  split; [exact H|].
  exact (proj1 (ids_follow_arrival _ H)).
Defined.

(** The ids need not be consecutive: Ann posts her songs, edits them, and
    then Bob joins.  The edit is an ignored insert that uses up the id 2,
    so Bob gets the id 3. *)
Lemma edit_uses_an_id :
  map p_id
    (people
       (fst (run [Demo.join "Ann" "a1" "a2" "a3"; Demo.join "Ann" "a4" "a5" "a6";
                  Demo.join "Bob" "b1" "b2" "b3"] Demo.init)))
  = [1; 3].
Proof. reflexivity. Qed.

(** *** The ranking *)

Lemma entry_le_spec a b :
  entry_le a b = true
  <-> e_percent b < e_percent a
      \/ (e_percent a = e_percent b
          /\ (e_right b < e_right a
              \/ (e_right a = e_right b /\ created_at a <= created_at b))).
Proof.
  unfold entry_le.
  rewrite !orb_true_iff, !andb_true_iff, orb_true_iff, andb_true_iff,
    !Z.ltb_lt, !Z.eqb_eq, Z.leb_le. tauto.
Qed.

Lemma entry_le_total a b : entry_le a b = true \/ entry_le b a = true.
Proof. rewrite !entry_le_spec. lia. Qed.

Lemma entry_le_trans a b c :
  entry_le a b = true -> entry_le b c = true -> entry_le a c = true.
Proof. rewrite !entry_le_spec. lia. Qed.

Lemma StronglySorted_impl {A} (R Q : A -> A -> Prop) l :
  (forall a b, R a b -> Q a b) -> StronglySorted R l -> StronglySorted Q l.
Proof.
  intros H. induction 1 as [|a l Hl IH Ha]; constructor; [exact IH|].
  eapply Forall_impl; [|exact Ha]. intros b. apply H.
Qed.

(** The leaderboard page shows every row of the table once, ordered by
    percent from high to low, then by right answers from high to low, then
    by time of entry from early to late; the summary page shows the first
    five of that list. *)
Theorem ranking_orders_the_leaderboard (db : DB) (s : Session) :
  Permutation (ranked db) (leaderboard db)
  /\ StronglySorted
       (fun a b =>
          e_percent b < e_percent a
          \/ (e_percent a = e_percent b
              /\ (e_right b < e_right a
                  \/ (e_right a = e_right b /\ created_at a <= created_at b))))
       (ranked db)
  /\ leaderboard_page db s = (RenderLeaderboard (ranked db), db, s)
  /\ exists sc last hist shared cham modal,
       finished db s
       = (RenderFinished sc last hist shared (firstn 5 (ranked db)) cham modal, db, s).
Proof.
  split; [apply DrawFacts.sort_by_perm|]. split.
  - eapply StronglySorted_impl;
      [|apply (DrawFacts.sort_by_sorted entry_le entry_le_total entry_le_trans)].
    intros a b. apply entry_le_spec.
  - split; [reflexivity|]. unfold finished. eauto 10.
Qed.

End Board.

(** ** Rounds, guesses and the summary *)

Module Game.
Import Db Sess App Spec Store DbFacts RouteFacts Invariant Rounds Songs
       StoreFacts Players.

(** A guess that names the subject is scored as right: both entries of
    the score go up by one, both counters of the subject go up by one,
    and nobody else's counters, no player, track or leaderboard row
    change. *)
Theorem right_guess_counts_twice (st : State) (c : Z) (p : Person) :
  reachable st ->
  correct_person_id (snd st) = Some c ->
  person_by_id (fst st) c = Some p ->
  let sc := get_score (snd st) in
  let res := guess (Some (p_name p)) (fst st) (snd st) in
  let db' := snd (fst res) in
  fst (fst res)
  = Json (Some (p_name p)) (p_name p) true
         (mkScore (right sc + 1) (total sc + 1)) (all_shown (snd res))
  /\ get_score (snd res) = mkScore (right sc + 1) (total sc + 1)
  /\ counters db' c
     = (fst (counters (fst st) c) + 1, snd (counters (fst st) c) + 1)
  /\ (forall x, x <> c -> counters db' x = counters (fst st) x)
  /\ people db' = people (fst st) /\ tracks db' = tracks (fst st)
  /\ leaderboard db' = leaderboard (fst st).
Proof.
  intros Hre Hc Hp sc res db'. pose proof (reachable_inv _ Hre) as Hinv.
  destruct st as [db s]. simpl in *.
  destruct (guess_scored (Some (p_name p)) db s c Hinv Hc)
    as (q & db1 & Hq & _ & Hr & Hg).
  rewrite Hp in Hq. injection Hq as <-.
  rewrite String.eqb_refl in Hr, Hg.
  subst db' res. rewrite Hg. simpl.
  split; [reflexivity|]. split; [reflexivity|].
  destruct (record_guess_counters _ _ _ _ Hr) as [Hcnt Hoth].
  destruct (record_guess_same _ _ _ _ Hr) as (Ep & Et & _ & El).
  rewrite Hcnt. auto.
Qed.

Lemma right_guess_counts_twice_witness :
  reachable Demo.in_round
  /\ correct_person_id (snd Demo.in_round) = Some 1
  /\ person_by_id (fst Demo.in_round) 1 = Some (mkPerson 1 "Ann")
  /\ get_score (snd (guess (Some "Ann") (fst Demo.in_round) (snd Demo.in_round)))
     = mkScore 1 1.
Proof.
  assert (H1 : reachable Demo.in_round)
    by exact (reach_step _ _ (reachable_run _ _ reach_init)).
  assert (H2 : correct_person_id (snd Demo.in_round) = Some 1) by reflexivity.
  assert (H3 : person_by_id (fst Demo.in_round) 1 = Some (mkPerson 1 "Ann"))
    by reflexivity.
  split; [exact H1|]. split; [exact H2|]. split; [exact H3|].
  exact (proj1 (proj2 (right_guess_counts_twice Demo.in_round 1
                         (mkPerson 1 "Ann") H1 H2 H3))).
Defined.

(** A round is answered once: after a scored guess the round is gone, so
    a second guess (a replayed request, with the same or another choice)
    gets the redirect to the quiz and changes neither the session nor the
    database. *)
Theorem replayed_guess_is_not_scored
    (st : State) (c : Z) (choice again : option string) :
  reachable st ->
  correct_person_id (snd st) = Some c ->
  let st1 := step (Own (Guess choice)) st in
  correct_person_id (snd st1) = None
  /\ current_track_ids (snd st1) = None
  /\ response_of (Own (Guess again)) st1 = Some (Redirect "quiz")
  /\ step (Own (Guess again)) st1 = st1.
Proof.
  intros Hre Hc st1. pose proof (reachable_inv _ Hre) as Hinv.
  destruct st as [db s]. simpl in *.
  destruct (guess_scored choice db s c Hinv Hc) as (p & db1 & _ & _ & _ & Hg).
  subst st1. simpl. rewrite Hg. simpl.
  split; [reflexivity|]. split; [reflexivity|].
  unfold response_of. simpl. split; reflexivity.
Qed.

Lemma replayed_guess_is_not_scored_witness :
  reachable Demo.in_round
  /\ correct_person_id (snd Demo.in_round) = Some 1
  /\ step (Own (Guess (Some "Ann"))) (step (Own (Guess (Some "Ann"))) Demo.in_round)
     = step (Own (Guess (Some "Ann"))) Demo.in_round.
Proof.
  assert (H1 : reachable Demo.in_round)
    by exact (reach_step _ _ (reachable_run _ _ reach_init)).
  assert (H2 : correct_person_id (snd Demo.in_round) = Some 1) by reflexivity.
  split; [exact H1|]. split; [exact H2|].
  exact (proj2 (proj2 (proj2 (replayed_guess_is_not_scored Demo.in_round 1
                                (Some "Ann") (Some "Ann") H1 H2)))).
Defined.

(** With fewer than three eligible players [/quiz] starts no game: it
    shows the empty page when there is none and the "need more players"
    page with their number otherwise, whatever the session holds, and
    writes nothing. *)
Theorem quiz_needs_three_players (r : Py.Rand) (db : DB) (s : Session) :
  (List.length (eligible db) < 3)%nat ->
  quiz r db s
  = (match eligible db with
     | [] => RenderEmpty
     | _ => RenderNeedMorePlayers (List.length (eligible db))
     end, db, s).
Proof.
  intros H. unfold quiz. destruct (eligible db) as [|e l] eqn:E; [reflexivity|].
  rewrite <- E in *. destruct (Nat.ltb_spec (List.length (eligible db)) 3); [|lia].
  now rewrite E.
Qed.

Lemma quiz_needs_three_players_witness :
  (List.length (eligible (fst Demo.same_track_twice)) < 3)%nat
  /\ quiz Demo.first (fst Demo.same_track_twice) Sess.empty
     = (RenderNeedMorePlayers 1, fst Demo.same_track_twice, Sess.empty).
Proof.
  assert (H : (List.length (eligible (fst Demo.same_track_twice)) < 3)%nat)
    by (vm_compute; lia).
  split; [exact H|].
  exact (quiz_needs_three_players Demo.first (fst Demo.same_track_twice) Sess.empty H).
Defined.

(** When [/quiz] shows a round, the subject is an eligible player still
    remaining; the tracks shown are the subject's three tracks; the
    choices are three different names of eligible players, the subject's
    name among them. *)
Theorem round_offers_three_distinct_names
    (st : State) (r : Py.Rand)
    (shown choices : list string) (progress : Progress) :
  reachable st ->
  response_of (Own (Quiz r)) st = Some (RenderQuiz shown choices progress) ->
  exists p,
    correct_person_id (snd (step (Own (Quiz r)) st)) = Some (p_id p)
    /\ In p (eligible (fst st))
    /\ In (p_id p) (rem (snd (step (Own (Quiz r)) st)))
    /\ shown = track_ids_of (fst st) (p_id p)
    /\ List.length shown = 3%nat
    /\ List.length choices = 3%nat
    /\ NoDup choices
    /\ In (p_name p) choices
    /\ (forall n, In n choices -> In n (map p_name (eligible (fst st)))).
Proof.
  intros Hre Hresp. pose proof (reachable_inv _ Hre) as Hinv.
  pose proof (reachable_store _ Hre) as Hst.
  destruct st as [db s]. pose proof Hinv as [Hdb Hrem _ _]. simpl in *.
  unfold response_of in Hresp. simpl in Hresp.
  destruct (Nat.ltb_spec (List.length (eligible db)) 3) as [C|C].
  { destruct (quiz_idle r db s (or_introl C)) as (_ & _ & N).
    destruct (quiz r db s) as [[resp db'] s']. injection Hresp as ->.
    exfalso. eapply N. reflexivity. }
  destruct (all_shown s) eqn:A.
  { destruct (quiz_idle r db s (or_intror A)) as (_ & _ & N).
    destruct (quiz r db s) as [[resp db'] s']. injection Hresp as ->.
    exfalso. eapply N. reflexivity. }
  destruct (quiz_round r db s Hdb Hrem A C) as (pid & p & x & y & Hc & Hp & Hs & Hq).
  rewrite Hq in *. injection Hresp as <- <- _. simpl.
  apply person_by_id_Some in Hp as [Hin Epid]. subst pid.
  pose proof (names_NoDup _ Hst) as Hnames.
  rewrite (eligible_all _ Hst) in *.
  assert (Hoth : NoDup (map p_name (filter (fun q => negb (p_id q =? p_id p))
                                           (people db))))
    by now apply PyFacts.NoDup_map_filter.
  destruct (DrawFacts.sample2_distinct _ _ _ _ Hoth Hs) as (Hx & Hy & Hxy).
  assert (Hother : forall n,
             In n (map p_name (filter (fun q => negb (p_id q =? p_id p)) (people db))) ->
             In n (map p_name (people db)) /\ n <> p_name p).
  { intros n Hn. apply in_map_iff in Hn as (q & <- & Hq').
    apply filter_In in Hq' as [Hq' Hne]. split; [now apply in_map|].
    intros E. apply (DrawFacts.NoDup_map_inj p_name _ _ _ Hnames Hq' Hin) in E.
    subst q. rewrite Z.eqb_refl in Hne. discriminate. }
  destruct (Hother x Hx) as [Hx1 Hx2]. destruct (Hother y Hy) as [Hy1 Hy2].
  pose proof (DrawFacts.shuffle_perm (Py.rnd_shuffle r) [p_name p; x; y]) as Hperm.
  exists p. split; [reflexivity|]. split; [exact Hin|].
  split; [unfold rem, get_remaining; simpl; eapply PyFacts.choice_In, Hc|].
  split; [reflexivity|]. split.
  { rewrite track_ids_rows, length_map, DrawFacts.sort_by_length.
    now apply three_rows. }
  split; [now rewrite (Permutation_length Hperm)|]. split.
  { eapply Permutation_NoDup; [symmetry; exact Hperm|].
    repeat constructor; simpl; intuition congruence. }
  split; [eapply Permutation_in; [symmetry; exact Hperm | now left]|].
  intros n Hn. apply (Permutation_in _ Hperm) in Hn.
  destruct Hn as [<-|[<-|[<-|[]]]]; auto. now apply in_map.
Qed.

Lemma round_offers_three_distinct_names_witness :
  reachable Demo.three_players
  /\ response_of (Own (Quiz Demo.first)) Demo.three_players
     = Some (RenderQuiz ["abc"; "xyz"; "a3"] ["Bob"; "Cy"; "Ann"]
               (mkProgress (mkScore 0 0) 3 0))
  /\ NoDup ["Bob"; "Cy"; "Ann"].
Proof.
  assert (H1 : reachable Demo.three_players)
    by exact (reachable_run _ _ reach_init).
  assert (H2 : response_of (Own (Quiz Demo.first)) Demo.three_players
               = Some (RenderQuiz ["abc"; "xyz"; "a3"] ["Bob"; "Cy"; "Ann"]
                         (mkProgress (mkScore 0 0) 3 0))) by reflexivity.
  split; [exact H1|]. split; [exact H2|].
  destruct (round_offers_three_distinct_names Demo.three_players Demo.first
              _ _ _ H1 H2) as (p & _ & _ & _ & _ & _ & _ & Hnd & _).
  exact Hnd.
Defined.

End Game.

(** ** The summary page *)

Module Pages.
Import Db Sess App Spec Store DbFacts RouteFacts Invariant Rounds Songs
       StoreFacts Players.

Lemma round_ok_people db db' r :
  (exists extra, people db' = (people db ++ extra)%list) ->
  round_ok db r -> round_ok db' r.
Proof.
  intros [extra E] [V S T]. split; auto.
  rewrite E, map_app, in_app_iff. auto.
Qed.

Lemma summary_db db db' s :
  (exists extra, people db' = (people db ++ extra)%list) ->
  summary_ok db s -> summary_ok db' s.
Proof.
  intros E [R L P N]. split; auto.
  eapply Forall_impl; [|exact R]. intros r. now apply round_ok_people.
Qed.

Lemma summary_frame db s s' :
  history s' = history s -> last_result s' = last_result s ->
  correct_person_id s' = correct_person_id s ->
  current_track_ids s' = current_track_ids s ->
  (name_submitted s' = true -> all_shown s' = true) ->
  summary_ok db s -> summary_ok db s'.
Proof.
  intros E1 E2 E3 E4 H [R L P N].
  split; unfold get_history in *; rewrite ?E1, ?E2, ?E3, ?E4; auto.
Qed.

Lemma summary_quiz r db s :
  inv (db, s) -> store_ok db -> summary_ok db s ->
  summary_ok db (snd (quiz r db s)).
Proof.
  intros Hinv Hst Hsum. pose proof Hinv as [Hdb Hrem _ _]. simpl in *.
  destruct (Nat.ltb_spec (List.length (eligible db)) 3) as [C|C].
  { now destruct (quiz_idle r db s (or_introl C)) as (-> & _). }
  destruct (all_shown s) eqn:A.
  { now destruct (quiz_idle r db s (or_intror A)) as (-> & _). }
  destruct (quiz_round r db s Hdb Hrem A C) as (pid & p & x & y & _ & Hp & _ & Hq).
  rewrite Hq. simpl. destruct Hsum as [R L P N]. split; simpl; auto.
  intros c [= <-]. eexists. split; [reflexivity|].
  apply person_by_id_Some in Hp as [Hin <-].
  rewrite track_ids_rows, length_map, DrawFacts.sort_by_length.
  now apply three_rows.
Qed.

Lemma summary_guess choice db s :
  inv (db, s) -> summary_ok db s ->
  summary_ok (snd (fst (guess choice db s))) (snd (guess choice db s)).
Proof.
  intros Hinv Hsum. destruct (correct_person_id s) as [c|] eqn:Hc.
  - destruct (guess_scored choice db s c Hinv Hc) as (p & db1 & Hp & _ & Hr & Hg).
    rewrite Hg. simpl. destruct Hsum as [R L P N].
    destruct (record_guess_same _ _ _ _ Hr) as (Ep & _).
    destruct (P c Hc) as (t & Ht & Hlen).
    assert (Hgrow : exists extra, people db1 = (people db ++ extra)%list)
      by (exists []; now rewrite app_nil_r).
    split; simpl.
    + change (get_history (scored_session _ _ _ _ _ _))
        with (get_history s ++ [mkRound choice (p_name p)
               (match choice with Some ch => String.eqb ch (p_name p) | None => false end)
               (get_track_ids s)])%list.
      apply Forall_app. split.
      * eapply Forall_impl; [|exact R]. intros r. now apply round_ok_people.
      * apply Forall_cons; [|constructor]. split; simpl.
        -- destruct choice as [ch|]; [|split; intros H; discriminate H].
           rewrite String.eqb_eq. split; [now intros -> | now intros [= ->]].
        -- rewrite Ep. apply in_map. now apply person_by_id_Some in Hp.
        -- unfold get_track_ids. now rewrite Ht.
    + change (get_history (scored_session _ _ _ _ _ _))
        with (get_history s ++ [mkRound choice (p_name p)
               (match choice with Some ch => String.eqb ch (p_name p) | None => false end)
               (get_track_ids s)])%list.
      rewrite map_app. simpl. now rewrite last_last.
    + discriminate.
    + intros Hsub. rewrite (N Hsub). now destruct (Py.remove c (rem s)).
  - now rewrite (guess_stale choice db s Hc).
Qed.

Lemma summary_step ev st :
  inv st -> store_ok (fst st) -> summary_ok (fst st) (snd st) ->
  summary_ok (fst (step ev st)) (snd (step ev st)).
Proof.
  destruct st as [db s]. intros Hinv Hst Hsum.
  pose proof (inv_db _ Hinv) as Hdb. simpl in Hdb, Hst, Hsum.
  destruct ev as [req|s' req].
  2:{ simpl. pose proof (handle_db req db s' Hdb) as [_ [G _]].
      destruct (handle req db s') as [[resp db'] s'']. simpl in *.
      now apply (summary_db db). }
  destruct req; simpl; try exact Hsum.
  - pose proof (handle_db (InputSongsPost name t1 t2 t3) db s Hdb) as [_ [G _]].
    pose proof (input_songs_post_session name t1 t2 t3 db s) as Es. simpl in *.
    destruct (input_songs_post name t1 t2 t3 db s) as [[resp db'] s2].
    simpl in *. subst. now apply (summary_db db).
  - pose proof (quiz_db r db s) as Ed. pose proof (summary_quiz r db s Hinv Hst Hsum) as H.
    destruct (quiz r db s) as [[resp db'] s2]. simpl in *. now subst.
  - pose proof (summary_guess choice db s Hinv Hsum) as H.
    now destruct (guess choice db s) as [[resp db'] s2].
  - unfold enter_name. destruct (all_shown s) eqn:A; simpl; [|exact Hsum].
    destruct m; [exact Hsum|]. destruct (negb (Py.nonempty _)); simpl; [exact Hsum|].
    apply (summary_db db); [exists []; now rewrite app_nil_r|].
    now apply (summary_frame db s).
  - unfold skip_name. destruct (all_shown s) eqn:A; simpl; [|exact Hsum].
    destruct (name_submitted s); simpl; [exact Hsum|].
    now apply (summary_frame db s).
  - destruct Hsum as [R L P N]. split; simpl; auto; discriminate.
Qed.

Lemma reachable_summary st : reachable st -> summary_ok (fst st) (snd st).
Proof.
  induction 1 as [|st ev Hre IH].
  - split; simpl; auto; discriminate.
  - apply summary_step; auto using reachable_inv, reachable_store.
Qed.

(** Every round of the history was judged as the code judges: it is
    marked right exactly when the choice is the subject's name; its subject
    is a player, and it carries the three tracks that were shown.  The last
    result kept for the feedback is the last round of the history, and
    there is none exactly when the history is empty. *)
Theorem history_rounds_are_consistent (st : State) :
  reachable st ->
  (forall r, In r (get_history (snd st)) ->
     (is_right r = true <-> chosen r = Some (correct r))
     /\ (exists p, In p (people (fst st)) /\ p_name p = correct r)
     /\ List.length (round_tracks r) = 3%nat)
  /\ (get_history (snd st) = [] -> last_result (snd st) = None)
  /\ (forall h r, get_history (snd st) = (h ++ [r])%list ->
        last_result (snd st) = Some (mkLast (chosen r) (correct r) (is_right r))).
Proof.
  intros Hre. destruct (reachable_summary _ Hre) as [R L _ _].
  split; [|split].
  - intros r Hr. rewrite Forall_forall in R. destruct (R r Hr) as [V S T].
    split; [exact V|]. split; [|exact T].
    apply in_map_iff in S as (p & E & Hp). eauto.
  - intros E. now rewrite L, E.
  - intros h r E. rewrite L, E, map_app. simpl. now rewrite last_last.
Qed.

Lemma history_rounds_are_consistent_witness :
  reachable Demo.game_over
  /\ last_result (snd Demo.game_over) = Some (mkLast (Some "Cy") "Cy" true).
Proof.
  assert (H : reachable Demo.game_over)
    by exact (reachable_run _ _ (reach_step _ _ (reachable_run _ _ reach_init))).
  split; [exact H|].
  apply (proj2 (proj2 (history_rounds_are_consistent Demo.game_over H))
           [mkRound (Some "Ann") "Ann" true ["abc"; "xyz"; "a3"];
            mkRound None "Bob" false ["abc"; "b2"; "b3"]]
           (mkRound (Some "Cy") "Cy" true ["c1"; "c2"; "c3"])).
  reflexivity.
Defined.

(** *** The name modal *)

Lemma game_over_stays ev st :
  inv st -> is_reset ev = false ->
  all_shown (snd st) = true ->
  all_shown (snd (step ev st)) = true
  /\ (name_submitted (snd st) = true -> name_submitted (snd (step ev st)) = true).
Proof.
  destruct st as [db s]. intros Hinv Nr A. simpl in A.
  destruct ev as [req|s' req].
  2:{ simpl. destruct (handle req db s') as [[? ?] ?]. simpl. auto. }
  destruct req; try discriminate; simpl; auto.
  - pose proof (input_songs_post_session name t1 t2 t3 db s) as Es.
    destruct (input_songs_post name t1 t2 t3 db s) as [[? ?] ?].
    simpl in *. subst. auto.
  - destruct (quiz_idle r db s (or_intror A)) as (Es & _).
    destruct (quiz r db s) as [[? ?] ?]. simpl in *. subst. auto.
  - pose proof (inv_remaining _ Hinv) as Hrem. unfold remaining_ok in Hrem.
    simpl in Hrem.
    assert (Hc : correct_person_id s = None).
    { destruct (remaining_people s) as [[l|]|]; [|tauto|].
      - destruct Hrem as (_ & _ & _ & F & _). congruence.
      - destruct Hrem as (F & _). congruence. }
    rewrite (guess_stale choice db s Hc). auto.
  - unfold enter_name. rewrite A. simpl. destruct m; [simpl; auto|].
    destruct (negb (Py.nonempty _)); simpl; auto.
  - unfold skip_name. rewrite A. destruct (name_submitted s) eqn:S; simpl; auto.
Qed.

(** The name is asked for once per game: a session holds
    [name_submitted] only when its game is over, and from then on, until a
    [/reset], the game stays over, the flag stays, and the summary page
    does not open the name modal. *)
Theorem name_modal_is_not_reopened (st : State) (evs : list Event) :
  reachable st ->
  name_submitted (snd st) = true ->
  no_reset evs ->
  let st' := run evs st in
  all_shown (snd st) = true
  /\ all_shown (snd st') = true
  /\ name_submitted (snd st') = true
  /\ modal_of (fst (fst (finished (fst st') (snd st')))) = false.
Proof.
  intros Hre Hsub Hnr st'.
  pose proof (submitted_after_game _ _ (reachable_summary _ Hre) Hsub) as A.
  split; [exact A|].
  assert (H : all_shown (snd st') = true /\ name_submitted (snd st') = true).
  { subst st'. pose proof (reachable_inv _ Hre) as Hinv. clear Hre.
    revert st Hinv Hsub A. induction Hnr as [|ev evs Nev Nevs IH]; intros st Hinv Hsub A.
    - simpl. auto.
    - simpl. destruct (game_over_stays ev st Hinv Nev A) as [A' S'].
      apply IH; auto using inv_step. }
  destruct H as [A' S']. split; [exact A'|]. split; [exact S'|].
  simpl. now rewrite A', S'.
Qed.

Lemma name_modal_is_not_reopened_witness :
  reachable (step (Own SkipName) Demo.game_over)
  /\ name_submitted (snd (step (Own SkipName) Demo.game_over)) = true
  /\ no_reset [Own (Quiz Demo.first); Own Finished]
  /\ modal_of (fst (fst (finished (fst Demo.game_over) (snd Demo.game_over)))) = true
  /\ modal_of
       (fst (fst (finished
                    (fst (run [Own (Quiz Demo.first); Own Finished]
                              (step (Own SkipName) Demo.game_over)))
                    (snd (run [Own (Quiz Demo.first); Own Finished]
                              (step (Own SkipName) Demo.game_over))))))
     = false.
Proof.
  assert (H1 : reachable (step (Own SkipName) Demo.game_over))
    by exact (reach_step _ _ (reachable_run _ _
                (reach_step _ _ (reachable_run _ _ reach_init)))).
  assert (H2 : name_submitted (snd (step (Own SkipName) Demo.game_over)) = true)
    by reflexivity.
  assert (H3 : no_reset [Own (Quiz Demo.first); Own Finished])
    by (repeat constructor).
  split; [exact H1|]. split; [exact H2|]. split; [exact H3|].
  split; [reflexivity|].
  exact (proj2 (proj2 (proj2 (name_modal_is_not_reopened _ _ H1 H2 H3)))).
Defined.

End Pages.

(** ** What the routes leave alone *)

Module Frames.
Import Db Sess App Spec Store DbFacts RouteFacts Invariant Songs.

Lemma quiz_total_people r db s n :
  total_people s = Some n -> total_people (snd (quiz r db s)) = Some n.
Proof.
  intros H. unfold quiz. destruct (eligible db); [exact H|].
  destruct (_ <? 3)%nat; [exact H|]. destruct (all_shown s); [exact H|].
  destruct (get_remaining s) as [l0|];
    (destruct (Py.choice _ _); [|exact H]);
    (destruct (person_by_id db z); [|exact H]);
    (destruct (Py.sample2 _ _); [|exact H]);
    simpl; rewrite H; exact H.
Qed.

Lemma guess_total_people choice db s n :
  total_people s = Some n -> total_people (snd (guess choice db s)) = Some n.
Proof.
  intros H. unfold guess. destruct (correct_person_id s); [|exact H].
  destruct (record_guess _ _ db); [|exact H].
  unfold drop_current. simpl.
  destruct (remaining_people s) as [[l|]|]; simpl; try exact H.
  destruct (current_person_id s); simpl; [|exact H].
  destruct (Py.mem z0 l); simpl; [|exact H].
  destruct (Py.remove z0 l); exact H.
Qed.

Lemma handle_total_people req db s n :
  total_people s = Some n -> total_people (snd (handle req db s)) = Some n.
Proof.
  intros H. destruct req; simpl; try exact H.
  - now rewrite input_songs_post_session.
  - now apply quiz_total_people.
  - now apply guess_total_people.
  - unfold enter_name. destruct (negb (all_shown s)); [exact H|].
    destruct m; [exact H|]. now destruct (negb (Py.nonempty _)).
  - unfold skip_name. now destruct (_ && _).
Qed.

(** The number of people that the progress bar divides by is taken once:
    when the session holds [total_people], no request changes it any more,
    whoever joins and whatever the session does, a [/reset] included. *)
Theorem total_people_is_taken_once (st : State) (evs : list Event) (n : Z) :
  total_people (snd st) = Some n ->
  total_people (snd (run evs st)) = Some n.
Proof.
  revert st. induction evs as [|ev evs IH]; intros st H; simpl; [exact H|].
  apply IH. destruct st as [db s]. destruct ev as [req|s' req]; simpl in *.
  - pose proof (handle_total_people req db s n H) as E.
    now destruct (handle req db s) as [[? ?] ?].
  - now destruct (handle req db s') as [[? ?] ?].
Qed.

Lemma total_people_is_taken_once_witness :
  total_people (snd Demo.in_round) = Some 3
  /\ total_people
       (snd (run [Demo.join "Dee" "d1" "d2" "d3"; Own Reset; Own (Quiz Demo.first)]
                 Demo.in_round))
     = Some 3.
Proof.
  assert (H : total_people (snd Demo.in_round) = Some 3) by reflexivity.
  split; [exact H|].
  exact (total_people_is_taken_once Demo.in_round _ 3 H).
Defined.

(** Only [/input-songs] (POST), [/guess] and [/enter-name] ever write to
    the database, and only [/quiz], [/guess], [/enter-name], [/skip-name]
    and [/reset] ever write to the session: every other request returns the
    database, respectively the session, exactly as it got it. *)
Theorem routes_write_where_they_say (req : Request) (db : DB) (s : Session) :
  (if writes_db req then True else snd (fst (handle req db s)) = db)
  /\ (if writes_session req then True else snd (handle req db s) = s).
Proof.
  split; destruct req; simpl; try exact I; try reflexivity.
  - apply quiz_db.
  - unfold skip_name. now destruct (_ && _).
  - apply input_songs_post_session.
Qed.

End Frames.

(** ** [extract_track_id] *)

Module TrackId.
Import Db Sess App Spec Store.

Local Open Scope nat_scope.

Lemma prefix_nil s : String.prefix EmptyString s = true.
Proof. now destruct s. Qed.

Lemma prefix_append m rest : String.prefix m (m ++ rest) = true.
Proof.
  induction m as [|a m IH]; simpl; [apply prefix_nil|].
  destruct (ascii_dec a a); [exact IH | congruence].
Qed.

Lemma length_append a b :
  String.length (a ++ b) = String.length a + String.length b.
Proof. induction a as [|c a IH]; simpl; [reflexivity | now rewrite IH]. Qed.

Lemma substring_all s : String.substring 0 (String.length s) s = s.
Proof. induction s as [|c s IH]; simpl; [reflexivity | now rewrite IH]. Qed.

Lemma substring_skip a b n :
  String.substring (String.length a) n (a ++ b) = String.substring 0 n b.
Proof. induction a as [|c a IH]; simpl; [reflexivity | exact IH]. Qed.

Lemma append_assoc_here a b c : (a ++ b ++ c = (a ++ b) ++ c)%string.
Proof. induction a as [|x a IH]; simpl; [reflexivity | now rewrite IH]. Qed.

Lemma substring_take a b : String.substring 0 (String.length a) (a ++ b) = a.
Proof.
  induction a as [|c a IH]; simpl; [now destruct b | now rewrite IH].
Qed.

(** *** Cutting at one character *)

Lemma index_char c s :
  match String.index 0 (String c EmptyString) s with
  | Some i => String.substring 0 i s
  | None => s
  end = before c s.
Proof.
  induction s as [|a s IH]; [reflexivity|].
  cbn [String.index String.prefix before].
  destruct (ascii_dec c a) as [E|N].
  - subst a. rewrite prefix_nil, Ascii.eqb_refl. reflexivity.
  - assert (Ea : Ascii.eqb a c = false) by (apply Ascii.eqb_neq; congruence).
    rewrite Ea.
    destruct (String.index 0 (String c EmptyString) s) as [i|];
      simpl; now rewrite <- IH.
Qed.

Lemma split_head_char c s : Py.split_head (String c EmptyString) s = before c s.
Proof.
  unfold Py.split_head, Py.split_once. rewrite <- index_char.
  now destruct (String.index 0 (String c EmptyString) s).
Qed.

Lemma has_before_same c s : has c (before c s) = false.
Proof.
  induction s as [|a s IH]; simpl; [reflexivity|].
  destruct (Ascii.eqb a c) eqn:E; simpl; [reflexivity | now rewrite E].
Qed.

Lemma has_before c d s : has c s = false -> has c (before d s) = false.
Proof.
  induction s as [|a s IH]; simpl; [reflexivity|].
  intros H. apply orb_false_iff in H as [H1 H2].
  destruct (Ascii.eqb a d); simpl; [reflexivity|]. now rewrite H1, IH.
Qed.

Lemma before_clean c s : has c s = false -> before c s = s.
Proof.
  induction s as [|a s IH]; simpl; [reflexivity|].
  intros H. apply orb_false_iff in H as [H1 H2]. now rewrite H1, IH.
Qed.

Lemma before_append c s q : has c s = false -> before c (s ++ String c q) = s.
Proof.
  induction s as [|a s IH]; simpl.
  - now rewrite Ascii.eqb_refl.
  - intros H. apply orb_false_iff in H as [H1 H2]. now rewrite H1, IH.
Qed.

Lemma before_substring c s q p :
  has c s = false -> String.length s < p ->
  before c (String.substring 0 p (s ++ String c q)) = s.
Proof.
  revert p. induction s as [|a s IH]; intros [|p] H L; simpl in *; try lia.
  - now rewrite Ascii.eqb_refl.
  - apply orb_false_iff in H as [H1 H2]. rewrite H1, IH; [reflexivity | exact H2 | lia].
Qed.

(** *** Where the marker can occur *)

(** A string that lacks a character of [m] does not contain [m]. *)
Lemma prefix_lacking c m s :
  has c m = true -> has c s = false -> String.prefix m s = false.
Proof.
  revert s. induction m as [|a m IH]; intros s Hm Hs; [discriminate|].
  destruct s as [|b s]; [reflexivity|]. simpl in *.
  apply orb_false_iff in Hs as [Hb Hs].
  destruct (ascii_dec a b) as [E|N]; [|reflexivity]. subst b.
  rewrite Hb in Hm. simpl in Hm. now apply IH.
Qed.

Lemma index_lacking c m s n :
  has c m = true -> has c s = false -> String.index n m s = None.
Proof.
  intros Hm. revert n. induction s as [|b s IH]; intros n Hs.
  - destruct m; [discriminate|]. now destruct n.
  - pose proof Hs as Hs'. simpl in Hs'. apply orb_false_iff in Hs' as [_ Hs'].
    destruct n as [|n]; cbn [String.index].
    + rewrite (prefix_lacking c m (String b s) Hm Hs).
      now rewrite (IH 0 Hs').
    + now rewrite (IH n Hs').
Qed.

(** [m] contains [c] and lacks [d]; it cannot start inside a text that
    lacks [c] and is followed by [d]. *)
Lemma prefix_across c d m u q :
  has c m = true -> has d m = false -> has c u = false ->
  String.prefix m (u ++ String d q) = false.
Proof.
  revert u. induction m as [|a m IH]; intros u Hc Hd Hu; [discriminate|].
  simpl in Hc, Hd. apply orb_false_iff in Hd as [Had Hd].
  destruct u as [|b u]; simpl.
  - destruct (ascii_dec a d) as [E|N]; [|reflexivity].
    subst d. now rewrite Ascii.eqb_refl in Had.
  - simpl in Hu. apply orb_false_iff in Hu as [Hb Hu].
    destruct (ascii_dec a b) as [E|N]; [|reflexivity]. subst b.
    rewrite Hb in Hc. simpl in Hc. now apply IH.
Qed.

Lemma index_across c d m u q p :
  has c m = true -> has d m = false -> has c u = false ->
  String.index 0 m (u ++ String d q) = Some p -> String.length u < p.
Proof.
  intros Hc Hd. revert p. induction u as [|b u IH]; intros p Hu H.
  - pose proof (prefix_across c d m EmptyString q Hc Hd Hu) as P.
    change (EmptyString ++ String d q)%string with (String d q) in H, P.
    cbn [String.index] in H. rewrite P in H.
    destruct (String.index 0 m q); [|discriminate]. injection H as <-. simpl. lia.
  - pose proof Hu as Hu'. simpl in Hu'. apply orb_false_iff in Hu' as [_ Hu'].
    pose proof (prefix_across c d m (String b u) q Hc Hd Hu) as P.
    change (String b u ++ String d q)%string
      with (String b (u ++ String d q)) in H, P.
    cbn [String.index] in H. rewrite P in H.
    destruct (String.index 0 m (u ++ String d q)) as [i|] eqn:E; [|discriminate].
    injection H as <-. specialize (IH i Hu' eq_refl). simpl. lia.
Qed.

(** The first occurrence of [m] in [pre ++ m ++ rest] is right after
    [pre] when [pre] lacks the first character of [m]. *)
Lemma index_after_prefix a m pre rest :
  has a pre = false ->
  String.index 0 (String a m) (pre ++ String a m ++ rest)
  = Some (String.length pre).
Proof.
  induction pre as [|b pre IH]; intros H.
  - change (EmptyString ++ String a m ++ rest)%string
      with (String a (m ++ rest)).
    cbn [String.index String.length].
    change (String a (m ++ rest)) with (String a m ++ rest)%string.
    now rewrite prefix_append.
  - simpl in H. apply orb_false_iff in H as [Hb H].
    change (String b pre ++ String a m ++ rest)%string
      with (String b (pre ++ String a m ++ rest)).
    cbn [String.index String.prefix String.length].
    destruct (ascii_dec a b) as [E|N].
    + subst b. now rewrite Ascii.eqb_refl in Hb.
    + now rewrite (IH H).
Qed.

Lemma marker_chars :
  has "/" marker = true /\ has "?" marker = false
  /\ marker = String "o" "pen.spotify.com/track/".
Proof. repeat split. Qed.

Lemma split_once_url pre rest :
  has "o" pre = false ->
  Py.split_once marker (pre ++ marker ++ rest) = Some (pre, rest).
Proof.
  intros H. unfold Py.split_once.
  assert (Ei : String.index 0 marker (pre ++ marker ++ rest)
               = Some (String.length pre))
    by exact (index_after_prefix "o" "pen.spotify.com/track/" pre rest H).
  rewrite Ei. f_equal. f_equal.
  - apply substring_take.
  - rewrite !length_append.
    replace (String.length pre + (String.length marker + String.length rest)
             - (String.length pre + String.length marker))
      with (String.length rest) by lia.
    rewrite <- length_append, append_assoc_here.
    rewrite substring_skip. apply substring_all.
Qed.

Lemma extract_track_id_cut s i :
  String.index 0 marker s = Some i ->
  exists part, extract_track_id s = before "/" (before "?" part).
Proof.
  intros H. unfold extract_track_id, Py.split_once. rewrite H.
  eexists. rewrite !split_head_char. reflexivity.
Qed.

(** A text without the marker is kept as it is.  Otherwise the result
    contains neither a slash nor a question mark.  In both cases
    extracting again changes nothing. *)
Theorem extracted_id_is_clean_and_stable (s : string) :
  match String.index 0 marker s with
  | None => extract_track_id s = s
  | Some _ =>
      has "/" (extract_track_id s) = false /\ has "?" (extract_track_id s) = false
  end
  /\ extract_track_id (extract_track_id s) = extract_track_id s.
Proof.
  destruct (String.index 0 marker s) as [i|] eqn:E.
  - destruct (extract_track_id_cut s i E) as [part ->].
    assert (H1 : has "/" (before "/" (before "?" part)) = false)
      by apply has_before_same.
    split; [split; [exact H1 | apply has_before, has_before_same]|].
    unfold extract_track_id at 1, Py.split_once.
    now rewrite (index_lacking "/" marker _ 0 (proj1 marker_chars) H1).
  - assert (H : extract_track_id s = s)
      by (unfold extract_track_id, Py.split_once; now rewrite E).
    split; [exact H | now rewrite !H].
Qed.

(** The id is read back from a link: for an id without slash and
    question mark, and a text before the marker without the letter o (such
    as the scheme and the two slashes), the link made of that text, the
    marker and the id, with or without a query string after the id, gives
    the id. *)
Theorem extract_track_id_reads_links (pre id q : string) :
  has "o" pre = false ->
  has "/" id = false ->
  has "?" id = false ->
  extract_track_id (pre ++ marker ++ id) = id
  /\ extract_track_id (pre ++ marker ++ id ++ String "?" q) = id.
Proof.
  intros Hpre Hs Hq. destruct marker_chars as (Mc & Md & _). split.
  - unfold extract_track_id. rewrite (split_once_url pre id Hpre).
    rewrite !split_head_char.
    unfold Py.split_head, Py.split_once.
    rewrite (index_lacking "/" marker id 0 Mc Hs).
    now rewrite (before_clean "?" id Hq), (before_clean "/" id Hs).
  - unfold extract_track_id. rewrite (split_once_url pre _ Hpre).
    rewrite !split_head_char.
    assert (E : before "?" (Py.split_head marker (id ++ String "?" q)) = id).
    { unfold Py.split_head, Py.split_once.
      destruct (String.index 0 marker (id ++ String "?" q)) as [p|] eqn:Ei.
      - apply before_substring; [exact Hq|].
        exact (index_across "/" "?" marker id q p Mc Md Hs Ei).
      - now apply before_append. }
    rewrite E. now apply before_clean.
Qed.

Lemma extract_track_id_reads_links_witness :
  has "o" "https://" = false
  /\ has "/" "4uLU6hMCjMI75M1A2tKUQC" = false
  /\ has "?" "4uLU6hMCjMI75M1A2tKUQC" = false
  /\ extract_track_id
       "https://open.spotify.com/track/4uLU6hMCjMI75M1A2tKUQC?si=0a1"
     = "4uLU6hMCjMI75M1A2tKUQC".
Proof.
  assert (H1 : has "o" "https://" = false) by reflexivity.
  assert (H2 : has "/" "4uLU6hMCjMI75M1A2tKUQC" = false) by reflexivity.
  assert (H3 : has "?" "4uLU6hMCjMI75M1A2tKUQC" = false) by reflexivity.
  split; [exact H1|]. split; [exact H2|]. split; [exact H3|].
  exact (proj2 (extract_track_id_reads_links "https://" "4uLU6hMCjMI75M1A2tKUQC"
                  "si=0a1" H1 H2 H3)).
Defined.

End TrackId.

(** ** The end of a game *)

Module Ending.
Import Db Sess App Spec Store DbFacts RouteFacts Invariant Rounds Songs
       StoreFacts Players Pages.

Lemma remove_last c l : NoDup l -> In c l -> (Py.remove c l = [] <-> l = [c]).
Proof.
  intros N Hin. split.
  - intros E. pose proof (PyFacts.remove_perm c l Hin) as P. rewrite E in P.
    apply Permutation_length_1_inv in P. exact P.
  - intros ->. simpl. now rewrite Z.eqb_refl.
Qed.

(** The answer to a guess says [finished] exactly when the subject was
    the last player remaining; the session is then marked [all_shown] and
    keeps no remaining list. *)
Theorem last_guess_finishes_the_game
    (st : State) (c : Z) (choice : option string) :
  reachable st ->
  correct_person_id (snd st) = Some c ->
  let res := guess choice (fst st) (snd st) in
  (finished_of (fst (fst res)) = true <-> rem (snd st) = [c])
  /\ all_shown (snd res) = finished_of (fst (fst res))
  /\ (rem (snd res) = [] <-> rem (snd st) = [c]).
Proof.
  intros Hre Hc res. pose proof (reachable_inv _ Hre) as Hinv.
  destruct st as [db s]. simpl in *.
  destruct (guess_scored choice db s c Hinv Hc) as (p & db1 & _ & Hin & _ & Hg).
  subst res. rewrite Hg. simpl.
  pose proof (rem_remaining s c Hin) as Hl.
  pose proof (inv_remaining _ Hinv) as Hrem. unfold remaining_ok in Hrem.
  simpl in Hrem. rewrite Hl in Hrem. destruct Hrem as (_ & Hnd & _ & A & _).
  rewrite rem_scored_session, <- (remove_last c (rem s) Hnd Hin).
  split; [|split; [reflexivity | reflexivity]].
  destruct (Py.remove c (rem s)); [tauto|]. rewrite A. split; discriminate.
Qed.

Lemma last_guess_finishes_the_game_witness :
  reachable Demo.in_round
  /\ correct_person_id (snd Demo.in_round) = Some 1
  /\ (finished_of (fst (fst (guess None (fst Demo.in_round) (snd Demo.in_round))))
      = true
      <-> rem (snd Demo.in_round) = [1]).
Proof.
  assert (H1 : reachable Demo.in_round)
    by exact (reach_step _ _ (reachable_run _ _ reach_init)).
  assert (H2 : correct_person_id (snd Demo.in_round) = Some 1) by reflexivity.
  split; [exact H1|]. split; [exact H2|].
  exact (proj1 (last_guess_finishes_the_game Demo.in_round 1 None H1 H2)).
Defined.

Lemma game_over_enough_players st :
  reachable st -> all_shown (snd st) = true ->
  (3 <= List.length (eligible (fst st)))%nat.
Proof.
  induction 1 as [|st ev Hre IH]; [discriminate|].
  pose proof (reachable_inv _ Hre) as Hinv.
  destruct (step_db ev st) as (req & s0 & Edb).
  pose proof (handle_db req (fst st) s0 (inv_db _ Hinv)) as [_ G].
  rewrite <- Edb in G. pose proof (grows_eligible _ _ G) as Hle.
  intros A. destruct (all_shown (snd st)) eqn:A0; [specialize (IH eq_refl); lia|].
  pose proof (inv_remaining _ Hinv) as Hrem. unfold remaining_ok in Hrem.
  destruct (remaining_people (snd st)) as [[l|]|] eqn:El.
  - destruct Hrem as (_ & _ & _ & _ & E3). lia.
  - destruct Hrem; congruence.
  - exfalso. destruct st as [db s]. simpl in *.
    destruct ev as [rq|s' rq].
    2:{ simpl in A. destruct (handle rq db s') as [[? ?] ?]. simpl in A. congruence. }
    destruct Hrem as (_ & _ & _ & Hc).
    destruct rq; simpl in A; try congruence.
    + pose proof (input_songs_post_session name t1 t2 t3 db s) as Es.
      destruct (input_songs_post name t1 t2 t3 db s) as [[? ?] ?].
      simpl in *. congruence.
    + destruct (Nat.ltb_spec (List.length (eligible db)) 3) as [C|C].
      { destruct (quiz_idle r db s (or_introl C)) as (Es & _).
        destruct (quiz r db s) as [[? ?] ?]. simpl in *. congruence. }
      destruct (quiz_round r db s (inv_db _ Hinv) (inv_remaining _ Hinv) A0 C)
        as (pid & p & x & y & _ & _ & _ & Hq).
      rewrite Hq in A. simpl in A. congruence.
    + rewrite (guess_stale choice db s Hc) in A. simpl in A. congruence.
    + unfold enter_name in A. rewrite A0 in A. simpl in A. congruence.
    + unfold skip_name in A. rewrite A0 in A. simpl in A. congruence.
Qed.

Lemma game_over_frozen ev st :
  inv st -> is_reset ev = false -> all_shown (snd st) = true ->
  score (snd (step ev st)) = score (snd st)
  /\ history (snd (step ev st)) = history (snd st)
  /\ remaining_people (snd (step ev st)) = remaining_people (snd st).
Proof.
  destruct st as [db s]. intros Hinv Nr A. simpl in A.
  destruct ev as [req|s' req].
  2:{ simpl. destruct (handle req db s') as [[? ?] ?]. simpl. auto. }
  destruct req; try discriminate; simpl; auto.
  - pose proof (input_songs_post_session name t1 t2 t3 db s) as Es.
    destruct (input_songs_post name t1 t2 t3 db s) as [[? ?] ?].
    simpl in *. subst. auto.
  - destruct (quiz_idle r db s (or_intror A)) as (Es & _).
    destruct (quiz r db s) as [[? ?] ?]. simpl in *. subst. auto.
  - pose proof (inv_remaining _ Hinv) as Hrem. unfold remaining_ok in Hrem.
    simpl in Hrem.
    assert (Hc : correct_person_id s = None).
    { destruct (remaining_people s) as [[l|]|]; [|tauto|].
      - destruct Hrem as (_ & _ & _ & F & _). congruence.
      - destruct Hrem as (F & _). congruence. }
    rewrite (guess_stale choice db s Hc). auto.
  - unfold enter_name. rewrite A. simpl. destruct m; [simpl; auto|].
    destruct (negb (Py.nonempty _)); simpl; auto.
  - unfold skip_name. rewrite A. destruct (name_submitted s) eqn:S; simpl; auto.
Qed.

(** Once the game is over the result stands: until a [/reset], no
    request of the session or of anybody else changes its score or its
    history, the session stays [all_shown], and every round request is
    answered by the redirect to the summary page. *)
Theorem finished_game_is_frozen (st : State) (evs : list Event) (r : Py.Rand) :
  reachable st ->
  all_shown (snd st) = true ->
  no_reset evs ->
  let st' := run evs st in
  all_shown (snd st') = true
  /\ get_score (snd st') = get_score (snd st)
  /\ get_history (snd st') = get_history (snd st)
  /\ response_of (Own (Quiz r)) st' = Some (Redirect "finished")
  /\ step (Own (Quiz r)) st' = st'.
Proof.
  intros Hre A Hnr st'.
  assert (H : all_shown (snd st') = true /\ score (snd st') = score (snd st)
              /\ history (snd st') = history (snd st)).
  { subst st'. pose proof (reachable_inv _ Hre) as Hinv. clear Hre.
    revert st Hinv A. induction Hnr as [|ev evs Nev Nevs IH]; intros st Hinv A.
    - simpl. auto.
    - simpl. destruct (game_over_stays ev st Hinv Nev A) as [A' _].
      destruct (game_over_frozen ev st Hinv Nev A) as (E1 & E2 & _).
      destruct (IH (step ev st) (inv_step _ _ Hinv) A') as (A2 & E3 & E4).
      split; [exact A2|]. split; congruence. }
  destruct H as (A' & E1 & E2).
  split; [exact A'|]. split; [unfold get_score; now rewrite E1|].
  split; [unfold get_history; now rewrite E2|].
  pose proof (game_over_enough_players st' (reachable_run evs st Hre) A') as C.
  assert (Hq : quiz r (fst st') (snd st') = (Redirect "finished", fst st', snd st')).
  { unfold quiz. destruct (eligible (fst st')) as [|e l] eqn:El; [simpl in C; lia|].
    rewrite <- El in *.
    destruct (Nat.ltb_spec (List.length (eligible (fst st'))) 3); [lia|].
    now rewrite A'. }
  unfold response_of, step. simpl. rewrite Hq. simpl.
  split; [reflexivity | now destruct st'].
Qed.

Lemma finished_game_is_frozen_witness :
  reachable Demo.game_over
  /\ all_shown (snd Demo.game_over) = true
  /\ no_reset [Own (Guess (Some "Cy")); Own (Quiz Demo.first)]
  /\ get_score (snd (run [Own (Guess (Some "Cy")); Own (Quiz Demo.first)]
                         Demo.game_over))
     = get_score (snd Demo.game_over).
Proof.
  assert (H1 : reachable Demo.game_over)
    by exact (reachable_run _ _ (reach_step _ _ (reachable_run _ _ reach_init))).
  assert (H2 : all_shown (snd Demo.game_over) = true) by reflexivity.
  assert (H3 : no_reset [Own (Guess (Some "Cy")); Own (Quiz Demo.first)])
    by (repeat constructor).
  split; [exact H1|]. split; [exact H2|]. split; [exact H3|].
  exact (proj1 (proj2 (finished_game_is_frozen Demo.game_over _ Demo.first H1 H2 H3))).
Defined.

(** *** Entering the name *)

(** [/enter-name] writes nothing unless the game is over, the request is
    a POST and the name is not blank: before the end of the game it
    redirects to the quiz, a GET redirects to the summary, and a blank or
    missing name gets the form again with the error. *)
Theorem name_entry_is_guarded
    (m : Method) (name : option string) (now : Z) (db : DB) (s : Session) :
  all_shown s = false \/ m = GET \/ blank name ->
  enter_name m name now db s
  = (if all_shown s
     then match m with
          | GET => Redirect "finished"
          | POST => RenderEnterNameError
          end
     else Redirect "quiz", db, s).
Proof.
  intros H. unfold enter_name. destruct (all_shown s); simpl; [|reflexivity].
  destruct m; [reflexivity|].
  destruct H as [H|[H|H]]; try discriminate.
  destruct name as [n|]; simpl in *; [now rewrite H | reflexivity].
Qed.

Lemma name_entry_is_guarded_witness :
  (all_shown (snd Demo.game_over) = false \/ POST = GET \/ blank (Some "  "))
  /\ enter_name POST (Some "  ") 7 (fst Demo.game_over) (snd Demo.game_over)
     = (RenderEnterNameError, fst Demo.game_over, snd Demo.game_over).
Proof.
  assert (H : all_shown (snd Demo.game_over) = false \/ POST = GET
              \/ blank (Some "  ")) by (right; right; reflexivity).
  split; [exact H|].
  exact (name_entry_is_guarded POST (Some "  ") 7 _ _ H).
Defined.

(** *** The counters *)

Lemma handle_counters req db s x :
  fst (counters db x) <= fst (counters (snd (fst (handle req db s))) x)
  /\ snd (counters db x) <= snd (counters (snd (fst (handle req db s))) x)
  /\ snd (counters db x) - fst (counters db x)
     <= snd (counters (snd (fst (handle req db s))) x)
        - fst (counters (snd (fst (handle req db s))) x).
Proof.
  assert (Hsame : forall db', person_stats db' = person_stats db ->
            counters db' x = counters db x).
  { intros db' E. unfold counters, stat_of. now rewrite E. }
  destruct req; simpl; try lia.
  - destruct (input_songs_cases name t1 t2 t3 db s)
      as [E|(n & a & b & c & p & _ & _ & E)]; rewrite E; simpl; [lia|].
    rewrite (Hsame (replace_tracks (p_id p) a b c (insert_or_ignore_person n db)));
      [lia|]. unfold insert_or_ignore_person.
    now destruct (person_by_name db n).
  - rewrite quiz_db. lia.
  - destruct (guess_db_cases choice db s) as [E|(c & b & R)]; [rewrite E; lia|].
    destruct (record_guess_counters _ _ _ _ R) as [Hc Ho].
    destruct (Z.eq_dec x c) as [->|N].
    + rewrite Hc. simpl. destruct b; lia.
    + rewrite (Ho x N). lia.
  - unfold enter_name. destruct (negb (all_shown s)); simpl; [lia|].
    destruct m; simpl; [lia|]. destruct (negb (Py.nonempty _)); simpl; [lia|].
    match goal with
    | |- context [counters ?d x] =>
        lazymatch d with
        | db => fail
        | _ => rewrite (Hsame d); [lia | reflexivity]
        end
    end.
  - unfold skip_name. destruct (_ && _); simpl; lia.
Qed.

(** The guess counters only go up: through any run, the number of guesses
    on a person, the number of right ones and the number of wrong ones are
    each at least what they were. *)
Theorem counters_never_decrease (st : State) (evs : list Event) (x : Z) :
  fst (counters (fst st) x) <= fst (counters (fst (run evs st)) x)
  /\ snd (counters (fst st) x) <= snd (counters (fst (run evs st)) x)
  /\ snd (counters (fst st) x) - fst (counters (fst st) x)
     <= snd (counters (fst (run evs st)) x) - fst (counters (fst (run evs st)) x).
Proof.
  revert st. induction evs as [|ev evs IH]; intros st; simpl; [lia|].
  specialize (IH (step ev st)).
  destruct (step_db ev st) as (req & s & E). rewrite E in IH.
  pose proof (handle_counters req (fst st) s x) as H.
  lia.
Qed.

End Ending.
